(** * courier: the HTTP server of the message gateway (server.go)

    A shallow embedding of [server.go]: route registration
    ([AddChannelRoute]), the handler initialisation pass
    ([initializeChannelHandlers]), request dispatch
    ([channelFunctionWrapper]), the index page ([handleIndex]) and the
    lifecycle ([NewServer], [Start], [Stop]).

    Go strings are byte strings: they are [string] here, one [ascii] per
    byte.  A Go [error] is its message; the nil error is [None].  Logging
    calls have no effect on the state the server reads and are left out. *)

From Stdlib Require Import ZArith Ascii String List Bool Lia DecimalString.
From stdpp Require Import base option list sorting gmap strings.

Local Open Scope Z_scope.

(** ** Go's string library, as far as the server uses it *)

Module GoStrings.

Definition byte_val (c : ascii) : N := N_of_ascii c.

(** [strings.ToLower], byte by byte: 'A'..'Z' move by ['a' - 'A'].  This is
    Go's own path for ASCII strings; bytes from 0x80 up are kept (Go maps
    non-ASCII runes through the Unicode tables, which are not modelled). *)
Definition lower_byte (c : ascii) : ascii :=
  if ((65 <=? byte_val c) && (byte_val c <=? 90))%N
  then ascii_of_N (byte_val c + 32)
  else c.

Fixpoint ToLower (s : string) : string :=
  match s with
  | EmptyString => EmptyString
  | String c rest => String (lower_byte c) (ToLower rest)
  end.

(** [utf8.RuneCountInString]: the width [fmt] pads to is counted in runes.
    [runeSize c rest] is the number of bytes of the rune that starts with
    byte [c] and goes on in [rest]; an invalid or short encoding is one
    rune of one byte. *)
Definition nth_byte (n : nat) (s : string) : option N :=
  byte_val <$> String.get n s.

Definition in_range (lo hi : N) (b : option N) : bool :=
  match b with
  | Some x => ((lo <=? x) && (x <=? hi))%N
  | None => false
  end.

Definition runeSize (c : ascii) (rest : string) : nat :=
  let x := byte_val c in
  let cont := in_range 128 191 in
  if (x <? 128)%N then 1%nat
  else if (x <? 194)%N then 1%nat
  else if (x <? 224)%N then
    if cont (nth_byte 0 rest) then 2%nat else 1%nat
  else if (x <? 240)%N then
    let lo := if (x =? 224)%N then 160%N else 128%N in
    let hi := if (x =? 237)%N then 159%N else 191%N in
    if in_range lo hi (nth_byte 0 rest) && cont (nth_byte 1 rest)
    then 3%nat else 1%nat
  else if (x <? 245)%N then
    let lo := if (x =? 240)%N then 144%N else 128%N in
    let hi := if (x =? 244)%N then 143%N else 191%N in
    if in_range lo hi (nth_byte 0 rest) && cont (nth_byte 1 rest)
       && cont (nth_byte 2 rest)
    then 4%nat else 1%nat
  else 1%nat.

Fixpoint runeCountFrom (skip : nat) (s : string) : nat :=
  match s with
  | EmptyString => 0%nat
  | String c rest =>
      match skip with
      | S k => runeCountFrom k rest
      | O => S (runeCountFrom (runeSize c rest - 1) rest)
      end
  end.

Definition RuneCountInString (s : string) : nat := runeCountFrom 0 s.

Fixpoint spaces (n : nat) : string :=
  match n with
  | O => EmptyString
  | S k => String " " (spaces k)
  end.

(** The verb [%-20s]: the argument, then spaces up to the width. *)
Definition padRight (width : nat) (s : string) : string :=
  s +:+ spaces (width - RuneCountInString s).

(** The verb [%d]. *)
Definition formatInt (n : Z) : string := NilZero.string_of_int (Z.to_int n).

(** [strings.Join]. *)
Definition Join (elems : list string) (sep : string) : string :=
  String.concat sep elems.

(** Go compares strings byte by byte; [sort.Strings] sorts increasingly. *)
Definition string_le (a b : string) : Prop := String.leb a b = true.

Definition newline : string := String (ascii_of_nat 10) EmptyString.

End GoStrings.

Import GoStrings.

(** A string with no space and no control byte: every byte is above 0x20. *)
Fixpoint visible (s : string) : bool :=
  match s with
  | EmptyString => true
  | String c rest => (32 <? byte_val c)%N && visible rest
  end.

#[global] Instance string_le_dec (a b : string) : Decision (string_le a b).
Proof. unfold string_le. apply _. Defined.

(** [sort.Strings].  The order is total and antisymmetric, so the sorted
    permutation of a list is unique (see [sortStrings_unique]) and the
    algorithm that computes it does not show. *)
Definition sortStrings (l : list string) : list string :=
  merge_sort string_le l.

(** ** What server.go takes from the rest of the program *)

Definition error := string.
Definition ChannelType := string.

(** [config.Courier], the fields the server reads.  A Go slice that was never
    set is nil, which the server tells apart from an empty one: [None] is
    the nil slice. *)
Record Courier := {
  Port : Z;
  Version : string;
  IncludeChannels : option (list string);
  ExcludeChannels : option (list string)
}.

(** Modelled from the spec: [utils.StringArrayContains] is not part of the
    sources at hand; the policy of the spec speaks of the ChannelType being
    a member of the configured set.  No string is a member of a nil slice. *)
Definition StringArrayContains (s : option (list string)) (e : string) : bool :=
  match s with
  | None => false
  | Some l => existsb (String.eqb e) l
  end.

Definition isNil {A} (s : option (list A)) : bool :=
  match s with None => true | Some _ => false end.

(** The types and functions of the other files and libraries: channels and
    their UUIDs (channel.go), the error response (responses.go), requests
    and response writers (net/http, chi), and the backend (backend.go).
    [World] is the state of everything behind these interfaces: the
    backend's store and whatever an adapter's handler reaches. *)
Class Collaborators := {
  Channel : Type;
  ChannelUUID : Type;
  NewChannelUUID : string -> ChannelUUID + error;
  ResponseWriter : Type;
  Request : Type;
  URLParam : Request -> string -> string;
  Write : ResponseWriter -> string -> ResponseWriter;
  WriteError : ResponseWriter -> Request -> error -> ResponseWriter;
  (* handler.go: an adapter, with the channel type it serves and its
     display name *)
  ChannelHandler : Type;
  handler_ChannelType : ChannelHandler -> ChannelType;
  handler_ChannelName : ChannelHandler -> string;
  World : Type;
  backend_Start : World -> option error * World;
  backend_Stop : World -> option error * World;
  backend_GetChannel : ChannelType -> ChannelUUID -> World -> (Channel + error) * World;
  backend_Health : World -> string;
  (* net/http: what binding the listener on an address gives, and what
     Shutdown reports *)
  http_Listen : string -> World -> option error;
  http_Shutdown : World -> option error * World
}.

Section Model.
Context `{Collaborators}.

(** [ChannelActionHandlerFunc]: an adapter's action, run on the resolved
    channel; it writes to the response and may fail. *)
Definition ChannelActionHandlerFunc : Type :=
  Channel -> ResponseWriter -> Request -> World ->
  option error * ResponseWriter * World.

(** An [http.HandlerFunc] mounted on a mux is either the method value
    [s.handleIndex] or a closure built by [channelFunctionWrapper]; the
    closure is kept as the two values it captures. *)
Inductive HandlerFunc : Type :=
| handleIndexFunc
| channelFunc (handler : ChannelHandler) (handlerFunc : ChannelActionHandlerFunc).

(** A [chi.Mux] as the sequence of calls made on it.  The one mux ever
    mounted is the channel router, held by reference: what is registered
    on it later is reachable through the mount. *)
Inductive muxEntry : Type :=
| Use (middleware : string)
| MountChanRouter (pattern : string)
| Handle (method : string) (pattern : string) (h : HandlerFunc).

Definition Mux : Type := list muxEntry.

Definition mux_Get (m : Mux) (pattern : string) (h : HandlerFunc) : Mux :=
  m ++ [Handle "GET" pattern h].
Definition mux_Post (m : Mux) (pattern : string) (h : HandlerFunc) : Mux :=
  m ++ [Handle "POST" pattern h].

(** [http.Server]: the fields set by [Start], and whether [Shutdown] has
    been called on it. *)
Record http_Server := {
  Addr : string;
  ReadTimeout : Z;
  WriteTimeout : Z;
  inShutdown : bool
}.

(** A channel that is never sent on: all that counts is whether it has
    been closed. *)
Inductive chan : Type := chanOpen | chanClosed.

(** [type server struct].  [backend] is a reference into [World];
    [waitGroup] is the counter of the [sync.WaitGroup]. *)
Record server := {
  httpServer : option http_Server;
  router : Mux;
  chanRouter : Mux;
  config : Courier;
  waitGroup : Z;
  stopChan : chan;
  stopped : bool;
  routes : list string
}.

Definition set_routes (s : server) (r : list string) : server :=
  {| httpServer := httpServer s; router := router s; chanRouter := chanRouter s;
     config := config s; waitGroup := waitGroup s; stopChan := stopChan s;
     stopped := stopped s; routes := r |}.
Definition set_chanRouter (s : server) (m : Mux) : server :=
  {| httpServer := httpServer s; router := router s; chanRouter := m;
     config := config s; waitGroup := waitGroup s; stopChan := stopChan s;
     stopped := stopped s; routes := routes s |}.
Definition set_router (s : server) (m : Mux) : server :=
  {| httpServer := httpServer s; router := m; chanRouter := chanRouter s;
     config := config s; waitGroup := waitGroup s; stopChan := stopChan s;
     stopped := stopped s; routes := routes s |}.
Definition set_httpServer (s : server) (h : option http_Server) : server :=
  {| httpServer := h; router := router s; chanRouter := chanRouter s;
     config := config s; waitGroup := waitGroup s; stopChan := stopChan s;
     stopped := stopped s; routes := routes s |}.
Definition set_waitGroup (s : server) (n : Z) : server :=
  {| httpServer := httpServer s; router := router s; chanRouter := chanRouter s;
     config := config s; waitGroup := n; stopChan := stopChan s;
     stopped := stopped s; routes := routes s |}.
Definition set_stopChan (s : server) (c : chan) : server :=
  {| httpServer := httpServer s; router := router s; chanRouter := chanRouter s;
     config := config s; waitGroup := waitGroup s; stopChan := c;
     stopped := stopped s; routes := routes s |}.
Definition set_stopped (s : server) (b : bool) : server :=
  {| httpServer := httpServer s; router := router s; chanRouter := chanRouter s;
     config := config s; waitGroup := waitGroup s; stopChan := stopChan s;
     stopped := b; routes := routes s |}.

(** [NewServer]: the top-level router with its middleware, the channel
    router mounted under [/c/], an open stop channel, a wait group at
    zero. *)
Definition NewServer (cfg : Courier) : server :=
  let router := [] in
  let router := router ++ [Use "RequestID"] in
  let router := router ++ [Use "RequestLogger"] in
  let router := router ++ [Use "Recoverer"] in
  let chanRouter := [] in
  let router := router ++ [MountChanRouter "/c/"] in
  {| httpServer := None; router := router; chanRouter := chanRouter;
     config := cfg; waitGroup := 0; stopChan := chanOpen;
     stopped := false; routes := [] |}.

(** The third method of the [ChannelHandler] interface: when initialised,
    an adapter registers its routes on the server it is handed. *)
Class ChannelHandlers := {
  handler_Initialize : ChannelHandler -> server -> option error * server
}.

(** The line of the route listing: [Sprintf("%-20s - %s %s", ...)]. *)
Definition routeLine (fullPath name action : string) : string :=
  padRight 20 fullPath +:+ " - " +:+ name +:+ " " +:+ action.

(** The path of a channel route: [Sprintf("/%s/:uuid/%s/", ...)]. *)
Definition routePath (channelType action : string) : string :=
  "/" +:+ channelType +:+ "/:uuid/" +:+ action +:+ "/".

Definition AddChannelRoute (s : server) (handler : ChannelHandler)
    (method action : string) (handlerFunc : ChannelActionHandlerFunc)
    : option error * server :=
  let method := ToLower method in
  let channelType := ToLower (handler_ChannelType handler) in
  let path := routePath channelType action in
  let wrapped := channelFunc handler handlerFunc in
  let registered :=
    if String.eqb method "get" then
      inl (set_chanRouter s (mux_Get (chanRouter s) path wrapped))
    else if String.eqb method "post" then
      inl (set_chanRouter s (mux_Post (chanRouter s) path wrapped))
    else
      inr ("unsupported method: " +:+ method) in
  match registered with
  | inr err => (Some err, s)
  | inl s =>
      (None,
       set_routes s
         (routes s ++ [routeLine ("/c" +:+ path) (handler_ChannelName handler) action]))
  end.

(** Modelled from the spec: the adapters (package handlers) are not part of
    the sources at hand.  An adapter's initialisation hook registers its
    routes against the dispatcher, one per action handler (method, path
    suffix, handler function), and gives up at the first one refused. *)
Fixpoint registerActions (s : server) (handler : ChannelHandler)
    (actions : list (string * string * ChannelActionHandlerFunc))
    : option error * server :=
  match actions with
  | [] => (None, s)
  | (method, action, handlerFunc) :: rest =>
      match AddChannelRoute s handler method action handlerFunc with
      | (Some err, s) => (Some err, s)
      | (None, s) => registerActions s handler rest
      end
  end.

(** The test of [initializeChannelHandlers]: the handlers which are
    included, and not excluded, in the config. *)
Definition includedNotExcluded (includes excludes : option (list string))
    (channelType : string) : bool :=
  (isNil includes || StringArrayContains includes channelType)
  && (isNil excludes || negb (StringArrayContains excludes channelType)).

Context `{ChannelHandlers}.

(** How the initialisation pass ends: the process is ended by [log.Fatal],
    or the pass leaves the server and the global [activeHandlers] of
    handler.go, a map keyed by channel type. *)
Inductive initResult : Type :=
| initFatal (err : error)
| initDone (s : server) (activeHandlers : gmap string ChannelHandler).

(** The loop of [initializeChannelHandlers] over [registeredHandlers], in
    the order the [range] yields them (Go does not fix it).  A failing
    [Initialize] ends the process through [log.Fatal]. *)
Fixpoint rangeRegisteredHandlers (includes excludes : option (list string))
    (registeredHandlers : list ChannelHandler)
    (s : server) (activeHandlers : gmap string ChannelHandler) : initResult :=
  match registeredHandlers with
  | [] => initDone s activeHandlers
  | handler :: rest =>
      let channelType := handler_ChannelType handler in
      if includedNotExcluded includes excludes channelType then
        match handler_Initialize handler s with
        | (Some err, _) => initFatal err
        | (None, s) =>
            rangeRegisteredHandlers includes excludes rest s
              (<[handler_ChannelType handler := handler]> activeHandlers)
        end
      else rangeRegisteredHandlers includes excludes rest s activeHandlers
  end.

Definition initializeChannelHandlers (registeredHandlers : list ChannelHandler)
    (s : server) (activeHandlers : gmap string ChannelHandler) : initResult :=
  let includes := IncludeChannels (config s) in
  let excludes := ExcludeChannels (config s) in
  match rangeRegisteredHandlers includes excludes registeredHandlers s activeHandlers with
  | initFatal err => initFatal err
  | initDone s activeHandlers =>
      (* sort our route help *)
      initDone (set_routes s (sortStrings (routes s))) activeHandlers
  end.

(** The server [AddChannelRoute] leaves when it accepts a route for
    [method] (as chi names it): the handler mounted on the channel router,
    the line appended to the listing. *)
Definition withChannelRoute (s : server) (handler : ChannelHandler)
    (method action : string) (handlerFunc : ChannelActionHandlerFunc) : server :=
  let path := "/" +:+ ToLower (handler_ChannelType handler) +:+ "/:uuid/" +:+ action +:+ "/" in
  set_routes
    (set_chanRouter s (chanRouter s ++ [Handle method path (channelFunc handler handlerFunc)]))
    (routes s ++ [routeLine ("/c" +:+ path) (handler_ChannelName handler) action]).

(** ** Request dispatch *)

(** The closure returned by [channelFunctionWrapper], applied to a request.
    The response writer is a value here: each write gives the next one. *)
Definition channelFunctionWrapper (handler : ChannelHandler)
    (handlerFunc : ChannelActionHandlerFunc)
    (w : ResponseWriter) (r : Request) (st : World) : ResponseWriter * World :=
  match NewChannelUUID (URLParam r "uuid") with
  | inr err => (WriteError w r err, st)
  | inl uuid =>
      match backend_GetChannel (handler_ChannelType handler) uuid st with
      | (inr err, st) => (WriteError w r err, st)
      | (inl channel, st) =>
          match handlerFunc channel w r st with
          | (Some err, w, st) => (WriteError w r err, st)
          | (None, w, st) => (w, st)
          end
      end
  end.

Definition splash : string :=
"
 ____________                   _____             
   ___  ____/_________  ___________(_)____________
    _  /  __  __ \  / / /_  ___/_  /_  _ \_  ___/
    / /__  / /_/ / /_/ /_  /   _  / /  __/  /    
    \____/ \____/\__,_/ /_/    /_/  \___//_/ v".

(** The body [handleIndex] assembles in its buffer. *)
Definition indexPage (s : server) (st : World) : string :=
  let buf := "" in
  let buf := buf +:+ "<title>courier</title><body><pre>" +:+ newline in
  let buf := buf +:+ splash in
  let buf := buf +:+ Version (config s) in
  let buf := buf +:+ backend_Health st in
  let buf := buf +:+ newline +:+ newline in
  let buf := buf +:+ Join (routes s) newline in
  let buf := buf +:+ "</pre></body>" in
  buf.

Definition handleIndex (s : server) (w : ResponseWriter) (r : Request)
    (st : World) : ResponseWriter * World :=
  (Write w (indexPage s st), st).

(** What a mounted handler does with a request. *)
Definition serveHandler (s : server) (h : HandlerFunc)
    (w : ResponseWriter) (r : Request) (st : World) : ResponseWriter * World :=
  match h with
  | handleIndexFunc => handleIndex s w r st
  | channelFunc handler handlerFunc => channelFunctionWrapper handler handlerFunc w r st
  end.

(** The path under which a pattern of the channel router is served, the
    router being mounted at [mount] (chi strips the mount pattern up to its
    final slash before the sub-router matches). *)
Definition mountedPattern (mount pattern : string) : string :=
  String.substring 0 (String.length mount - 1) mount +:+ pattern.

(** Every method and pattern the server answers, top-level router first. *)
Definition servedRoutes (s : server) : list (string * string) :=
  flat_map
    (fun e =>
       match e with
       | Use _ => []
       | Handle method pattern _ => [(method, pattern)]
       | MountChanRouter mount =>
           flat_map
             (fun e' =>
                match e' with
                | Handle method pattern _ => [(method, mountedPattern mount pattern)]
                | _ => []
                end)
             (chanRouter s)
       end)
    (router s).


(** ** The lifecycle: [Start] and [Stop]

    [Start] and [Stop] run on the caller's goroutine while the goroutines
    started by [Start] run beside them, all on the one [server].  Each is a
    sequence of atomic instructions, the next one chosen from the value the
    last one returned; a scheduler interleaves them. *)

(** The bodies a [go] statement starts. *)
Inductive task : Type :=
| serveTask   (* the [go func()] of [Start] *)
| spoolTask.  (* a spool flusher *)

Inductive instr : Type -> Type :=
| BackendStart : instr (option error)          (* s.backend.Start() *)
| BackendStop : instr (option error)           (* s.backend.Stop() *)
| Assign (f : server -> server) : instr unit   (* a write to fields of s *)
| InitializeChannelHandlers : instr unit       (* s.initializeChannelHandlers() *)
| GoStmt (t : task) : instr unit               (* go ... *)
| WaitGroupAdd (delta : Z) : instr unit        (* s.waitGroup.Add(delta) *)
| WaitGroupWait : instr unit                   (* s.waitGroup.Wait() *)
| CloseStopChan : instr unit                   (* close(s.stopChan) *)
| ReceiveStopChan : instr unit                 (* <-s.stopChan *)
| ListenAndServe : instr (option error)        (* s.httpServer.ListenAndServe() *)
| Shutdown : instr (option error).             (* s.httpServer.Shutdown(nil) *)

Inductive prog (A : Type) : Type :=
| Ret (a : A)
| Do {X : Type} (i : instr X) (k : X -> prog A).
Arguments Ret {A} a.
Arguments Do {A X} i k.

Fixpoint bind {A B : Type} (p : prog A) (f : A -> prog B) : prog B :=
  match p with
  | Ret a => f a
  | Do i k => Do i (fun x => bind (k x) f)
  end.

Definition call {X : Type} (i : instr X) : prog X := Do i Ret.

#[global] Instance prog_ret : MRet prog := fun A a => Ret a.
#[global] Instance prog_bind : MBind prog := fun A B f p => bind p f.

(** The process: the server, the world behind the backend, and the two
    globals of handler.go, [registeredHandlers] in the order its [range]
    yields and [activeHandlers]. *)
Record process := {
  srv : server;
  ext : World;
  registeredHandlers : list ChannelHandler;
  activeHandlers : gmap string ChannelHandler
}.

Definition with_srv (p : process) (s : server) : process :=
  {| srv := s; ext := ext p; registeredHandlers := registeredHandlers p;
     activeHandlers := activeHandlers p |}.
Definition with_ext (p : process) (x : World) : process :=
  {| srv := srv p; ext := x; registeredHandlers := registeredHandlers p;
     activeHandlers := activeHandlers p |}.

(** What one instruction does: it completes with a value (and maybe a new
    goroutine), it cannot go on yet, it panics, or it ends the process.
    Connections in flight are not modelled: [ListenAndServe] returns when
    the listener cannot be bound or the server is shut down, and [Shutdown]
    returns at once with what net/http reports. *)
Inductive result (X : Type) : Type :=
| Done (x : X) (p : process) (spawned : list task)
| Blocked
| Panic (msg : string)
| Exit (code : Z).
Arguments Done {X} x p spawned.
Arguments Blocked {X}.
Arguments Panic {X} msg.
Arguments Exit {X} code.

Definition ErrServerClosed : error := "http: Server closed".

Definition perform {X : Type} (i : instr X) (p : process) : result X :=
  match i in instr X return result X with
  | BackendStart =>
      let '(err, x) := backend_Start (ext p) in Done err (with_ext p x) []
  | BackendStop =>
      let '(err, x) := backend_Stop (ext p) in Done err (with_ext p x) []
  | Assign f => Done tt (with_srv p (f (srv p))) []
  | InitializeChannelHandlers =>
      match initializeChannelHandlers (registeredHandlers p) (srv p) (activeHandlers p) with
      | initFatal err => Exit 1
      | initDone s active =>
          Done tt {| srv := s; ext := ext p;
                     registeredHandlers := registeredHandlers p;
                     activeHandlers := active |} []
      end
  | GoStmt t => Done tt p [t]
  | WaitGroupAdd delta =>
      let n := waitGroup (srv p) + delta in
      if n <? 0 then Panic "sync: negative WaitGroup counter"
      else Done tt (with_srv p (set_waitGroup (srv p) n)) []
  | WaitGroupWait =>
      if waitGroup (srv p) =? 0 then Done tt p [] else Blocked
  | CloseStopChan =>
      match stopChan (srv p) with
      | chanClosed => Panic "close of closed channel"
      | chanOpen => Done tt (with_srv p (set_stopChan (srv p) chanClosed)) []
      end
  | ReceiveStopChan =>
      match stopChan (srv p) with
      | chanClosed => Done tt p []
      | chanOpen => Blocked
      end
  | ListenAndServe =>
      match httpServer (srv p) with
      | None => Panic "invalid memory address or nil pointer dereference"
      | Some h =>
          if inShutdown h then Done (Some ErrServerClosed) p []
          else match http_Listen (Addr h) (ext p) with
               | Some err => Done (Some err) p []
               | None => Blocked
               end
      end
  | Shutdown =>
      match httpServer (srv p) with
      | None => Panic "invalid memory address or nil pointer dereference"
      | Some h =>
          let '(err, x) := http_Shutdown (ext p) in
          let h := {| Addr := Addr h; ReadTimeout := ReadTimeout h;
                      WriteTimeout := WriteTimeout h; inShutdown := true |} in
          Done err (with_ext (with_srv p (set_httpServer (srv p) (Some h))) x) []
      end
  end.

(** Modelled from the spec: [startSpoolFlushers] (spool.go) is not part of
    the sources at hand.  Its workers are long-lived tasks started at
    [Start], handed the shared stop signal, that block on that signal and
    have exited before the shared completion counter reaches zero: a worker
    is counted, waits for the stop channel to be closed, and leaves. *)
Definition spoolFlusher : prog unit :=
  call ReceiveStopChan ;;
  call (WaitGroupAdd (-1)).

Definition startSpoolFlushers : prog unit :=
  call (WaitGroupAdd 1) ;;
  call (GoStmt spoolTask).

(** The goroutine of [Start]: it counts itself in, serves until the
    listener fails or is shut down, and counts itself out on leaving. *)
Definition serveHTTP : prog unit :=
  call (WaitGroupAdd 1) ;;
  err ← call ListenAndServe;
  (* err is logged unless it is nil or ErrServerClosed *)
  call (WaitGroupAdd (-1)).

Definition taskBody (t : task) : prog unit :=
  match t with
  | serveTask => serveHTTP
  | spoolTask => spoolFlusher
  end.

Definition Start : prog (option error) :=
  err ← call BackendStart;
  match err with
  | Some err => Ret (Some err)
  | None =>
      startSpoolFlushers ;;
      call (Assign (fun s => set_router s (mux_Get (router s) "/" handleIndexFunc))) ;;
      call InitializeChannelHandlers ;;
      call (Assign (fun s =>
              set_httpServer s
                (Some {| Addr := ":" +:+ formatInt (Port (config s));
                         ReadTimeout := 15; WriteTimeout := 15;
                         inShutdown := false |}))) ;;
      call (GoStmt serveTask) ;;
      Ret None
  end.

Definition Stop : prog (option error) :=
  err ← call BackendStop;
  match err with
  | Some err => Ret (Some err)
  | None =>
      call (Assign (fun s => set_stopped s true)) ;;
      call CloseStopChan ;;
      err ← call Shutdown;
      (* err is logged *)
      call WaitGroupWait ;;
      Ret None
  end.

(** *** One goroutine on its own *)

Inductive event : Type :=
| Ev {X : Type} (i : instr X).

(** How a run of one goroutine, with no other one moving, ends. *)
Inductive outcome (A : Type) : Type :=
| Returned (a : A) (p : process) (spawned : list task) (trace : list event)
| BlockedIn (i : event) (p : process) (spawned : list task) (trace : list event)
| Panicked (msg : string) (p : process) (trace : list event)
| Exited (code : Z) (trace : list event).
Arguments Returned {A} a p spawned trace.
Arguments BlockedIn {A} i p spawned trace.
Arguments Panicked {A} msg p trace.
Arguments Exited {A} code trace.

Definition after {A : Type} (e : event) (sp : list task) (o : outcome A) : outcome A :=
  match o with
  | Returned a p sp' tr => Returned a p (sp ++ sp') (e :: tr)
  | BlockedIn i p sp' tr => BlockedIn i p (sp ++ sp') (e :: tr)
  | Panicked msg p tr => Panicked msg p (e :: tr)
  | Exited code tr => Exited code (e :: tr)
  end.

Fixpoint exec {A : Type} (c : prog A) (p : process) : outcome A :=
  match c with
  | Ret a => Returned a p [] []
  | Do i k =>
      match perform i p with
      | Done x p' sp => after (Ev i) sp (exec (k x) p')
      | Blocked => BlockedIn (Ev i) p [] []
      | Panic msg => Panicked msg p [Ev i]
      | Exit code => Exited code [Ev i]
      end
  end.

(** How often a run has reached [close(s.stopChan)]. *)
Definition isClose (e : event) : bool :=
  match e with
  | Ev CloseStopChan => true
  | Ev _ => false
  end.

Definition closes (trace : list event) : nat := length (filter (fun e => isClose e = true) trace).

(** *** All goroutines together *)

Inductive status : Type :=
| Running
| Crashed (msg : string)
| Ended (code : Z).

(** The caller's goroutine is thread 0, with the calls it still has to
    make; the goroutines started since follow in the order of their [go]
    statements.  A goroutine that has run to its end stays in the list as
    [Ret tt]. *)
Record machine (A : Type) := {
  mproc : process;
  mmain : prog A;
  mpool : list (prog unit);
  mstatus : status
}.
Arguments mproc {A} m.
Arguments mmain {A} m.
Arguments mpool {A} m.
Arguments mstatus {A} m.

Definition stepProg {A : Type} (c : prog A) (p : process)
    : option (prog A * process * list task) + status :=
  match c with
  | Ret _ => inl None
  | Do i k =>
      match perform i p with
      | Done x p' sp => inl (Some (k x, p', sp))
      | Blocked => inl None
      | Panic msg => inr (Crashed msg)
      | Exit code => inr (Ended code)
      end
  end.

(** One move of goroutine [tid]; nothing moves once the process is over, and
    a goroutine that is blocked or finished leaves the machine as it is. *)
Definition step {A : Type} (tid : nat) (m : machine A) : machine A :=
  match mstatus m with
  | Running =>
      match tid with
      | O =>
          match stepProg (mmain m) (mproc m) with
          | inl (Some (c, p, sp)) =>
              {| mproc := p; mmain := c; mpool := mpool m ++ map taskBody sp;
                 mstatus := Running |}
          | inl None => m
          | inr st =>
              {| mproc := mproc m; mmain := mmain m; mpool := mpool m; mstatus := st |}
          end
      | S n =>
          match mpool m !! n with
          | None => m
          | Some g =>
              match stepProg g (mproc m) with
              | inl (Some (c, p, sp)) =>
                  {| mproc := p; mmain := mmain m;
                     mpool := <[n := c]> (mpool m) ++ map taskBody sp;
                     mstatus := Running |}
              | inl None => m
              | inr st =>
                  {| mproc := mproc m; mmain := mmain m; mpool := mpool m; mstatus := st |}
              end
          end
      end
  | _ => m
  end.

(** A schedule names the goroutine that moves next, move after move. *)
Definition run {A : Type} (schedule : list nat) (m : machine A) : machine A :=
  fold_left (fun m tid => step tid m) schedule m.

Definition boot {A : Type} (main : prog A) (p : process) : machine A :=
  {| mproc := p; mmain := main; mpool := []; mstatus := Running |}.

(** The value the caller's goroutine has returned, once it has. *)
Definition returned {A : Type} (m : machine A) : option A :=
  match mmain m with
  | Ret a => Some a
  | Do _ _ => None
  end.

(** A goroutine can move when it has an instruction left that is not
    blocked. *)
Definition canMove {A : Type} (c : prog A) (p : process) : bool :=
  match stepProg c p with
  | inl None => false
  | _ => true
  end.

(** A goroutine is still live when it has an instruction left to run. *)
Definition live {A : Type} (c : prog A) : bool :=
  match c with
  | Ret _ => false
  | Do _ _ => true
  end.

End Model.

Arguments Ret {_ A} a.
Arguments Do {_ A X} i k.
Arguments Done {_ X} x p spawned.
Arguments Blocked {_ X}.
Arguments Panic {_ X} msg.
Arguments Exit {_ X} code.
Arguments Returned {_ A} a p spawned trace.
Arguments BlockedIn {_ A} i p spawned trace.
Arguments Panicked {_ A} msg p trace.
Arguments Exited {_ A} code trace.
Arguments Ev {_ X} i.
Arguments mproc {_ A} m.
Arguments mmain {_ A} m.
Arguments mpool {_ A} m.
Arguments mstatus {_ A} m.

(** ** The rest of server.go *)

Section Rest.
Context `{Collaborators} `{!ChannelHandlers}.

(** The accessors of the [Server] interface, and [GetChannel], which hands
    the lookup to the backend. *)
Definition GetChannel (cType : ChannelType) (cUUID : ChannelUUID) (st : World)
    : (Channel + error) * World :=
  backend_GetChannel cType cUUID st.

Definition WaitGroup (s : server) : Z := waitGroup s.
Definition StopChan (s : server) : chan := stopChan s.
Definition Config (s : server) : Courier := config s.
Definition Stopped (s : server) : bool := stopped s.
Definition Router (s : server) : Mux := router s.

(** Two servers that differ at most in the channel router and the route
    listing. *)
Definition sameButRoutes (s s' : server) : Prop :=
  httpServer s' = httpServer s /\ router s' = router s /\ config s' = config s
  /\ waitGroup s' = waitGroup s /\ stopChan s' = stopChan s /\ stopped s' = stopped s.

(** The [http.Server] that [Start] sets up for a configuration. *)
Definition configuredServer (cfg : Courier) : http_Server :=
  {| Addr := ":" +:+ formatInt (Port cfg); ReadTimeout := 15; WriteTimeout := 15;
     inShutdown := false |}.

(** An [http.Server] once [Shutdown] has been called on it. *)
Definition shutDown (h : http_Server) : http_Server :=
  {| Addr := Addr h; ReadTimeout := ReadTimeout h; WriteTimeout := WriteTimeout h;
     inShutdown := true |}.

(** A string of ASCII bytes only. *)
Fixpoint isASCII (s : string) : bool :=
  match s with
  | EmptyString => true
  | String c rest => (byte_val c <? 128)%N && isASCII rest
  end.

(** A string without the byte '/'. *)
Fixpoint noSlash (s : string) : bool :=
  match s with
  | EmptyString => true
  | String c rest => negb (Ascii.eqb c "/") && noSlash rest
  end.

(** The caller's calls on the server, in sequence. *)
Inductive apiCall : Type := callStart | callStop.

Fixpoint calls (cs : list apiCall) : prog unit :=
  match cs with
  | [] => Ret tt
  | c :: rest =>
      bind (match c with callStart => Start | callStop => Stop end) (fun _ => calls rest)
  end.

(** Some calls, and then a call of [Stop] whose result the caller keeps. *)
Definition callsThenStop (cs : list apiCall) : prog (option error) :=
  bind (calls cs) (fun _ => Stop).

(** *** Reasoning about all interleavings

    An invariant [Inv] of the process and a guarantee [Guar] that every
    move of every goroutine keeps.  [obeys Fin Pre c]: started where [Pre]
    holds, the program [c] keeps the invariant and the guarantee at each
    instruction, knows at each point an assertion that the moves of the
    others cannot break, and returns a value [a] only where [Fin a]
    holds. *)
Section Interleavings.
Variable Inv : process -> Prop.
Variable Guar : process -> process -> Prop.

Definition stable (Q : process -> Prop) : Prop :=
  forall p p', Q p -> Guar p p' -> Q p'.

Fixpoint obeys {A : Type} (Fin : A -> process -> Prop) (Pre : process -> Prop)
    (c : prog A) : Prop :=
  match c with
  | Ret a => forall p, Inv p -> Pre p -> Fin a p
  | @Do _ _ X i k =>
      exists Post : X -> process -> Prop,
        (forall p x p' sp, Inv p -> Pre p -> perform i p = Done x p' sp ->
                           Inv p' /\ Guar p p' /\ Post x p')
        /\ (forall x, stable (Post x))
        /\ (forall x, obeys Fin (Post x) (k x))
  end.

Definition threadOk {A : Type} (Fin : A -> process -> Prop) (c : prog A)
    (p : process) : Prop :=
  exists Pre : process -> Prop, Pre p /\ stable Pre /\ obeys Fin Pre c.

Definition machineOk {A : Type} (Fin : A -> process -> Prop) (m : machine A) : Prop :=
  Inv (mproc m)
  /\ threadOk Fin (mmain m) (mproc m)
  /\ Forall (fun g => threadOk (fun _ _ => True) g (mproc m)) (mpool m).

End Interleavings.

(** The invariant and the guarantee of the stop signal: the stop channel is
    closed only on a server marked stopped; a server marked stopped stays
    so, and a closed channel stays closed. *)
Definition closedOnlyIfStopped (p : process) : Prop :=
  stopChan (srv p) = chanClosed -> stopped (srv p) = true.

Definition noWayBack (p p' : process) : Prop :=
  (stopped (srv p) = true -> stopped (srv p') = true)
  /\ (stopChan (srv p) = chanClosed -> stopChan (srv p') = chanClosed).

(** An instruction that leaves the stopped flag and the stop channel alone,
    and a program made of such instructions. *)
Definition quiet {X : Type} (i : instr X) : Prop :=
  forall p x p' sp, perform i p = Done x p' sp ->
    stopped (srv p') = stopped (srv p) /\ stopChan (srv p') = stopChan (srv p).

Fixpoint allQuiet {A : Type} (c : prog A) : Prop :=
  match c with
  | Ret _ => True
  | Do i k => quiet i /\ forall x, allQuiet (k x)
  end.

End Rest.


(** ** The activation policy in the words of the specification

    If an include set is configured (non-empty), an adapter is activated
    only if its ChannelType is a member; else if an exclude set is
    configured, it is activated unless its ChannelType is a member; else
    every adapter is activated. *)
Definition configured (set : option (list string)) : bool :=
  match set with
  | Some (_ :: _) => true
  | _ => false
  end.

Definition activation_policy_spec (includes excludes : option (list string))
    (channelType : string) : bool :=
  if configured includes then StringArrayContains includes channelType
  else if configured excludes then negb (StringArrayContains excludes channelType)
  else true.

(** ** A probe instance

    A small program around the server to run it on: a backend that knows a
    list of channels and answers [Stop] from a script, adapters given by
    their list of actions, response writers that record what is written,
    and an action handler that counts its invocations. *)
Module Probe.

Record world := {
  stopScript : list (option error);   (* what the next calls of Stop return *)
  knownChannels : list (string * string);
  invocations : nat
}.

Record adapter := {
  adapterType : string;
  adapterName : string;
  adapterActions : list (string * string)   (* method, action *)
}.

Definition parseUUID (u : string) : string + error :=
  if (String.length u =? 36)%nat then inl (ToLower u) else inr "invalid UUID".

Definition getChannel (t u : string) (st : world) : (string * string + error) * world :=
  if existsb (fun c => String.eqb (fst c) t && String.eqb (snd c) u) (knownChannels st)
  then (inl (t, u), st)
  else (inr "channel not found", st).

Definition stopBackend (st : world) : option error * world :=
  match stopScript st with
  | [] => (None, st)
  | r :: rest =>
      (r, {| stopScript := rest; knownChannels := knownChannels st;
             invocations := invocations st |})
  end.

#[export] Instance collaborators : Collaborators := {|
  Channel := string * string;
  ChannelUUID := string;
  NewChannelUUID := parseUUID;
  ResponseWriter := list string;
  Request := string;
  URLParam := fun r _ => r;
  Write := fun w body => w ++ [body];
  WriteError := fun w _ err => w ++ ["error: " +:+ err];
  ChannelHandler := adapter;
  handler_ChannelType := adapterType;
  handler_ChannelName := adapterName;
  World := world;
  backend_Start := fun st => (None, st);
  backend_Stop := stopBackend;
  backend_GetChannel := getChannel;
  backend_Health := fun _ => "";
  http_Listen := fun _ _ => None;
  http_Shutdown := fun st => (None, st)
|}.

(** The spy: an action handler that answers and counts the call. *)
Definition spy : ChannelActionHandlerFunc :=
  fun _ w _ st =>
    (None, w ++ ["ok"],
     {| stopScript := stopScript st; knownChannels := knownChannels st;
        invocations := S (invocations st) |}).

#[export] Instance handlers : ChannelHandlers := {|
  handler_Initialize := fun h s =>
    registerActions s h (map (fun ma => (fst ma, snd ma, spy)) (adapterActions h))
|}.

Definition cfg (includes excludes : option (list string)) : Courier :=
  {| Port := 8080; Version := "1.0"; IncludeChannels := includes;
     ExcludeChannels := excludes |}.

Definition X : adapter :=
  {| adapterType := "X"; adapterName := "X Adapter"; adapterActions := [("GET", "receive")] |}.
Definition Y : adapter :=
  {| adapterType := "Y"; adapterName := "Y Adapter"; adapterActions := [("POST", "status")] |}.

Definition quiet (script : list (option error)) : world :=
  {| stopScript := script; knownChannels := [("X", "0f0e0d0c-0b0a-0908-0706-050403020100")];
     invocations := 0 |}.

(** A process that has just built its server. *)
Definition fresh (script : list (option error)) : process :=
  {| srv := NewServer (cfg None None); ext := quiet script;
     registeredHandlers := [X; Y]; activeHandlers := ∅ |}.

(** The caller starts the server, then stops it. *)
Definition startThenStop : prog (option error * option error) :=
  e1 ← Start; e2 ← Stop; mret (e1, e2).

(** The caller starts the server and stops it twice. *)
Definition startThenStopTwice : prog (option error * option error * option error) :=
  e1 ← Start; e2 ← Stop; e3 ← Stop; mret (e1, e2, e3).

(** The server before [Start], and what an initialisation pass left. *)
Definition blank (c : Courier) : server := NewServer c.

Definition initServer (r : initResult) : server :=
  match r with
  | initDone s _ => s
  | initFatal _ => blank (cfg None None)
  end.

Definition initActive (r : initResult) : gmap string adapter :=
  match r with
  | initDone _ active => active
  | initFatal _ => ∅
  end.

Definition initFailed (r : initResult) : bool :=
  match r with
  | initDone _ _ => false
  | initFatal _ => true
  end.

(** An adapter that is named in both filters of [bothFilters]. *)
Definition A : adapter :=
  {| adapterType := "A"; adapterName := "A Adapter"; adapterActions := [("GET", "receive")] |}.

Definition bothFilters : Courier := cfg (Some ["A"]) (Some ["A"]).

(** An adapter with two actions, the second one a sub-path of the first
    that goes on with spaces. *)
Definition Z : adapter :=
  {| adapterType := "Z"; adapterName := "Z Adapter";
     adapterActions := [("GET", "r"); ("GET", "r/         ")] |}.

(** Schedules.  [Start] takes seven moves of the caller; the spool flusher
    is goroutine 1 and the serving goroutine is goroutine 2. *)
Definition callerRuns (n : nat) : list nat := repeat 0%nat n.

(** The serving goroutine counts itself in and serves; then the caller
    makes the one move [Stop] takes when the backend fails. *)
Definition servingThenStop : list nat := callerRuns 7 ++ [2%nat] ++ callerRuns 1.

(** The caller gets through [Stop] as far as the wait, both goroutines
    leave, the caller comes back from the wait. *)
Definition cleanStop : list nat :=
  callerRuns 7 ++ [2%nat] ++ callerRuns 4 ++ [1; 1; 2; 2]%nat ++ callerRuns 2.

(** The same, and then the three moves of a second [Stop]. *)
Definition stopAgain : list nat := cleanStop ++ callerRuns 3.

(** The serving goroutine does not get to move before [Stop] is back. *)
Definition lateServing : list nat :=
  callerRuns 7 ++ callerRuns 4 ++ [1; 1]%nat ++ callerRuns 2.

(** The process once [Start] has returned and the serving goroutine
    serves. *)
Definition serving (script : list (option error)) : process :=
  mproc (run (callerRuns 7 ++ [2%nat]) (boot Start (fresh script))).

Definition known_uuid : string := "0f0e0d0c-0b0a-0908-0706-050403020100".
Definition unknown_uuid : string := "ffffffff-ffff-ffff-ffff-ffffffffffff".

(** The adapter [X] with its channel type in lower case. *)
Definition lowerX : adapter :=
  {| adapterType := "x"; adapterName := "X Adapter"; adapterActions := [("GET", "receive")] |}.

(** An adapter that asks for a method the server does not support. *)
Definition putAdapter : adapter :=
  {| adapterType := "P"; adapterName := "P Adapter"; adapterActions := [("PUT", "receive")] |}.

(** A process whose server is set up and idle: the HTTP server configured,
    no goroutine counted in. *)
Definition idle : process :=
  {| srv := set_httpServer (NewServer (cfg None None))
              (Some (configuredServer (cfg None None)));
     ext := quiet []; registeredHandlers := [X; Y]; activeHandlers := ∅ |}.

(** A process in which the adapter that asks for PUT is registered between
    [X] and [Y]. *)
Definition misconfigured : process :=
  {| srv := NewServer (cfg None None); ext := quiet [];
     registeredHandlers := [X; putAdapter; Y]; activeHandlers := ∅ |}.

End Probe.

(** The probe with a backend that does not start. *)
Module DownProbe.

Definition collaborators : Collaborators := {|
  Channel := string * string;
  ChannelUUID := string;
  NewChannelUUID := Probe.parseUUID;
  ResponseWriter := list string;
  Request := string;
  URLParam := fun r _ => r;
  Write := fun w body => w ++ [body];
  WriteError := fun w _ err => w ++ ["error: " +:+ err];
  ChannelHandler := Probe.adapter;
  handler_ChannelType := Probe.adapterType;
  handler_ChannelName := Probe.adapterName;
  World := Probe.world;
  backend_Start := fun st => (Some "no database", st);
  backend_Stop := Probe.stopBackend;
  backend_GetChannel := Probe.getChannel;
  backend_Health := fun _ => "";
  http_Listen := fun _ _ => None;
  http_Shutdown := fun st => (None, st)
|}.

Definition handlers : @ChannelHandlers collaborators := {|
  handler_Initialize := fun h s =>
    @registerActions collaborators s h
      (map (fun ma => (fst ma, snd ma, Probe.spy)) (Probe.adapterActions h))
|}.

Definition fresh : @process collaborators :=
  {| srv := @NewServer collaborators (Probe.cfg None None); ext := Probe.quiet [];
     registeredHandlers := [Probe.X; Probe.Y]; activeHandlers := ∅ |}.

End DownProbe.

(** * Properties *)

(** ** The order of strings and [sort.Strings] *)

Lemma ascii_compare_spec (a b : ascii) :
  CompareSpec (a = b) (N_of_ascii a < N_of_ascii b)%N (N_of_ascii b < N_of_ascii a)%N
    (Ascii.compare a b).
Proof.
  unfold Ascii.compare.
  destruct (N.compare_spec (N_of_ascii a) (N_of_ascii b)) as [E|L|G]; constructor; auto.
  rewrite <- (ascii_N_embedding a), <- (ascii_N_embedding b). now rewrite E.
Qed.

Lemma leb_cons (a b : ascii) (s t : string) :
  String.leb (String a s) (String b t) = true <->
  (N_of_ascii a < N_of_ascii b)%N \/ (a = b /\ String.leb s t = true).
Proof.
  unfold String.leb. simpl.
  destruct (ascii_compare_spec a b) as [E|L|G].
  - subst. split; [right; auto | intros [L|[_ L]]; [lia | exact L]].
  - split; auto.
  - split; [discriminate | intros [L|[E _]]; [lia | subst; lia]].
Qed.

Lemma leb_nil_l (t : string) : String.leb EmptyString t = true.
Proof. destruct t; reflexivity. Qed.

Lemma leb_nil_r (a : ascii) (s : string) : String.leb (String a s) EmptyString = false.
Proof. reflexivity. Qed.

Lemma string_le_refl (s : string) : string_le s s.
Proof.
  unfold string_le. induction s as [|a s IH]; [reflexivity|].
  apply leb_cons. right; auto.
Qed.

Lemma string_le_trans (a b c : string) : string_le a b -> string_le b c -> string_le a c.
Proof.
  unfold string_le. revert b c.
  induction a as [|x a IH]; intros b c Hab Hbc; [apply leb_nil_l|].
  destruct b as [|y b]; [discriminate|].
  destruct c as [|z c]; [discriminate|].
  apply leb_cons in Hab. apply leb_cons in Hbc. apply leb_cons.
  destruct Hab as [L1|[E1 L1]], Hbc as [L2|[E2 L2]]; subst; eauto.
  left; lia.
Qed.

#[global] Instance string_le_Transitive : Transitive string_le := string_le_trans.
#[global] Instance string_le_Reflexive : Reflexive string_le := string_le_refl.
#[global] Instance string_le_Total : Total string_le.
Proof. intros a b. apply String.leb_total. Qed.
#[global] Instance string_le_AntiSymm : AntiSymm (=) string_le.
Proof. intros a b. apply String.leb_antisym. Qed.

Lemma sortStrings_sorted (l : list string) : StronglySorted string_le (sortStrings l).
Proof. apply StronglySorted_merge_sort; apply _. Qed.

Lemma sortStrings_perm (l : list string) : sortStrings l ≡ₚ l.
Proof. apply merge_sort_Permutation. Qed.

Lemma sortStrings_unique (l l' : list string) :
  l' ≡ₚ l -> Sorted string_le l' -> l' = sortStrings l.
Proof.
  intros P S. apply (Sorted_unique string_le); auto.
  - apply Sorted_merge_sort; apply _.
  - rewrite P. symmetry. apply sortStrings_perm.
Qed.

(** Two listings with the same lines sort to the same listing. *)
Lemma sortStrings_order_independent (l l' : list string) :
  l ≡ₚ l' -> sortStrings l = sortStrings l'.
Proof.
  intros P. apply sortStrings_unique.
  - now rewrite sortStrings_perm.
  - apply Sorted_merge_sort; apply _.
Qed.

Lemma lower_byte_idem (c : ascii) : lower_byte (lower_byte c) = lower_byte c.
Proof. destruct c as [[] [] [] [] [] [] [] []]; reflexivity. Qed.

Lemma ToLower_idem (s : string) : ToLower (ToLower s) = ToLower s.
Proof. induction s as [|c s IH]; simpl; [reflexivity|]. now rewrite lower_byte_idem, IH. Qed.

Lemma append_assoc (a b c : string) : (a +:+ b) +:+ c = a +:+ (b +:+ c).
Proof.
  induction a as [|x a IH]; [reflexivity|].
  change (String x ((a +:+ b) +:+ c) = String x (a +:+ b +:+ c)). now rewrite IH.
Qed.

Lemma StronglySorted_lookup {A} (R : relation A) (l : list A) (i j : nat) (x y : A) :
  StronglySorted R l -> (i < j)%nat -> l !! i = Some x -> l !! j = Some y -> R x y.
Proof.
  intros HS. revert i j. induction HS as [|a l HS IH F]; intros i j Lt Hi Hj.
  - discriminate.
  - destruct j as [|j]; [lia|]. destruct i as [|i]; simpl in *.
    + injection Hi as <-. rewrite Forall_forall in F. apply F.
      eapply list_elem_of_lookup_2; eauto.
    + apply (IH i j); [lia|exact Hi|exact Hj].
Qed.

(** ** The lines of the route listing *)

(** Whatever the path and the padding, a space follows the path. *)
Lemma routeLine_space (p name action : string) :
  exists rest, routeLine p name action = p +:+ String " " rest.
Proof.
  unfold routeLine, padRight.
  destruct (20 - RuneCountInString p)%nat as [|k].
  - exists ("- " +:+ name +:+ " " +:+ action). simpl.
    rewrite !append_assoc. reflexivity.
  - exists (spaces k +:+ " - " +:+ name +:+ " " +:+ action). simpl.
    rewrite !append_assoc. reflexivity.
Qed.

Lemma visible_before_space (p1 p2 r1 r2 : string) :
  visible p1 = true -> visible p2 = true ->
  string_le (p1 +:+ String " " r1) (p2 +:+ String " " r2) -> string_le p1 p2.
Proof.
  unfold string_le. revert p2.
  induction p1 as [|a p1 IH]; intros p2 V1 V2 L; [apply leb_nil_l|].
  simpl in V1. apply andb_true_iff in V1 as [Va V1]. apply N.ltb_lt in Va.
  unfold byte_val in Va.
  destruct p2 as [|b p2]; simpl in L.
  - apply leb_cons in L. destruct L as [L|[-> _]].
    + change (N_of_ascii " ") with 32%N in L. lia.
    + change (N_of_ascii " ") with 32%N in Va. lia.
  - simpl in V2. apply andb_true_iff in V2 as [_ V2].
    apply leb_cons in L. apply leb_cons.
    destruct L as [L|[-> L]]; [now left|]. right. split; [reflexivity|].
    now apply IH.
Qed.

(** Between paths without spaces or control bytes, the order of the lines
    is the order of the paths. *)
Lemma routeLine_path_order (p1 n1 a1 p2 n2 a2 : string) :
  visible p1 = true -> visible p2 = true ->
  string_le (routeLine p1 n1 a1) (routeLine p2 n2 a2) -> string_le p1 p2.
Proof.
  intros V1 V2 L.
  destruct (routeLine_space p1 n1 a1) as [r1 E1].
  destruct (routeLine_space p2 n2 a2) as [r2 E2].
  rewrite E1, E2 in L. eapply visible_before_space; eauto.
Qed.

Lemma StringArrayContains_In (l : list string) (e : string) :
  StringArrayContains (Some l) e = true <-> In e l.
Proof.
  simpl. rewrite existsb_exists. split.
  - intros [x [Hx E]]. apply String.eqb_eq in E. now subst.
  - intros Hx. exists e. split; [exact Hx|apply String.eqb_refl].
Qed.

Section Properties.
Context `{Collaborators} `{!ChannelHandlers}.

(** ** Route registration *)

Lemma AddChannelRoute_cases s handler method action f :
  AddChannelRoute s handler method action f =
    if String.eqb (ToLower method) "get" then
      (None, withChannelRoute s handler "GET" action f)
    else if String.eqb (ToLower method) "post" then
      (None, withChannelRoute s handler "POST" action f)
    else (Some ("unsupported method: " +:+ ToLower method), s).
Proof.
  unfold AddChannelRoute, withChannelRoute, mux_Get, mux_Post, routePath.
  destruct (String.eqb (ToLower method) "get"); [reflexivity|].
  destruct (String.eqb (ToLower method) "post"); reflexivity.
Qed.

Lemma servedRoutes_mount s mount M pattern h :
  In (MountChanRouter mount) (router s) ->
  In (Handle M pattern h) (chanRouter s) ->
  In (M, mountedPattern mount pattern) (servedRoutes s).
Proof.
  intros Hm Hh. unfold servedRoutes. apply in_flat_map.
  exists (MountChanRouter mount). split; [exact Hm|].
  apply in_flat_map. exists (Handle M pattern h). split; [exact Hh|]. now left.
Qed.

(** C6: a call of AddChannelRoute with a method that is neither GET nor POST
    (the method being compared in lower case, as the code does) fails with
    the error "unsupported method: ..." and leaves the server as it was: no
    handler is mounted on the channel router and the route listing, hence
    the route count, is unchanged. *)
Theorem AddChannelRoute_unsupported_method s handler method action f :
  ToLower method <> "get" -> ToLower method <> "post" ->
  AddChannelRoute s handler method action f
  = (Some ("unsupported method: " +:+ ToLower method), s).
Proof.
  intros Hg Hp. rewrite AddChannelRoute_cases.
  apply String.eqb_neq in Hg, Hp. now rewrite Hg, Hp.
Qed.



(** ** The initialisation pass *)

(** What the loop leaves in [activeHandlers]: the handlers it was given that
    pass the test, and what was there before for the other channel types. *)
Lemma rangeRegisteredHandlers_active includes excludes registered :
  forall s active s' active',
  NoDup (map handler_ChannelType registered) ->
  rangeRegisteredHandlers includes excludes registered s active = initDone s' active' ->
  forall (channelType : string) (handler : ChannelHandler),
    active' !! channelType = Some handler <->
    (In handler registered /\ handler_ChannelType handler = channelType
     /\ includedNotExcluded includes excludes channelType = true)
    \/ (active !! channelType = Some handler
        /\ (In channelType (map handler_ChannelType registered) ->
            includedNotExcluded includes excludes channelType = false)).
Proof.
  induction registered as [|h0 rest IH]; intros s active s' active' ND E ct h.
  - simpl in E. injection E as <- <-. simpl. tauto.
  - simpl in E. apply NoDup_cons in ND as [Hnot ND].
    rewrite list_elem_of_In in Hnot.
    destruct (includedNotExcluded includes excludes (handler_ChannelType h0)) eqn:Inc.
    + destruct (handler_Initialize h0 s) as [[err|] s1]; [discriminate|].
      rewrite (IH _ _ _ _ ND E ct h). simpl.
      destruct (decide (handler_ChannelType h0 = ct)) as [<-|Ne].
      * rewrite lookup_insert_eq. split.
        -- intros [[Hin [Et _]]|[Eh _]].
           ++ exfalso. apply Hnot. rewrite <- Et. now apply in_map.
           ++ injection Eh as <-. left. auto.
        -- intros [[[<-|Hin] [Et _]]|[_ Hn]].
           ++ right. split; [reflexivity|]. intros Hin. contradiction.
           ++ exfalso. apply Hnot. rewrite <- Et. now apply in_map.
           ++ rewrite Hn in Inc by now left. discriminate.
      * rewrite lookup_insert_ne by exact Ne. split.
        -- intros [[Hin Ht]|[Ha Hn]]; [left; auto|right]. split; [exact Ha|].
           intros [E'|Hin]; [contradiction|auto].
        -- intros [[[<-|Hin] [Et Hi]]|[Ha Hn]].
           ++ contradiction.
           ++ left. auto.
           ++ right. split; [exact Ha|]. intros Hin. apply Hn. now right.
    + rewrite (IH _ _ _ _ ND E ct h). simpl. split.
      * intros [[Hin Ht]|[Ha Hn]]; [left; auto|right]. split; [exact Ha|].
        intros [<-|Hin]; [exact Inc|auto].
      * intros [[[<-|Hin] [Et Hi]]|[Ha Hn]].
        -- rewrite <- Et, Inc in Hi. discriminate.
        -- left. auto.
        -- right. split; [exact Ha|]. intros Hin. apply Hn. now right.
Qed.


(** C7, as amended: after the initialisation pass, whatever the order in
    which the adapters were visited, the route listing holds the lines that
    were registered, sorted in the byte order of the whole lines, and the
    index page shows them in that order, one per line.  Lines whose paths
    hold no space and no control byte come in the order of their paths. *)
Theorem index_lists_routes_sorted registered s active s' active' :
  initializeChannelHandlers registered s active = initDone s' active' ->
  (exists s1,
     rangeRegisteredHandlers (IncludeChannels (config s)) (ExcludeChannels (config s))
       registered s active = initDone s1 active'
     /\ routes s' = sortStrings (routes s1) /\ routes s' ≡ₚ routes s1)
  /\ StronglySorted string_le (routes s')
  /\ (forall st,
        indexPage s' st
        = ("<title>courier</title><body><pre>" +:+ newline +:+ splash
           +:+ Version (config s') +:+ backend_Health st +:+ newline +:+ newline)
          +:+ Join (routes s') newline +:+ "</pre></body>")
  /\ (forall i j p1 n1 a1 p2 n2 a2,
        (i < j)%nat ->
        routes s' !! i = Some (routeLine p1 n1 a1) ->
        routes s' !! j = Some (routeLine p2 n2 a2) ->
        visible p1 = true -> visible p2 = true ->
        string_le p1 p2).
Proof.
  unfold initializeChannelHandlers. intros E.
  destruct (rangeRegisteredHandlers _ _ registered s active) as [err|s1 act1] eqn:R;
    [discriminate|].
  injection E as <- <-.
  assert (HS : StronglySorted string_le (sortStrings (routes s1)))
    by apply sortStrings_sorted.
  split; [|split; [|split]].
  - exists s1. split; [reflexivity|]. split; [reflexivity|]. apply sortStrings_perm.
  - exact HS.
  - intros st. unfold indexPage. simpl. rewrite !append_assoc. reflexivity.
  - intros i j p1 n1 a1 p2 n2 a2 Lt Hi Hj V1 V2.
    eapply routeLine_path_order; eauto.
    eapply (StronglySorted_lookup string_le); eauto.
Qed.

(** ** Request dispatch *)

(** C5: on a request to a channel route, if the UUID path segment does not
    parse, the error is written and the outcome is the same whatever the
    adapter's action handler is, the world behind it untouched: the handler
    is not invoked.  If the UUID parses and the backend does not resolve
    the channel, likewise.  Only when both succeed is the handler invoked,
    with the resolved channel and the request; an error it returns is
    written. *)
Theorem dispatch_guards_the_handler handler handlerFunc w r st :
  match NewChannelUUID (URLParam r "uuid") with
  | inr err =>
      forall anyFunc,
        channelFunctionWrapper handler anyFunc w r st = (WriteError w r err, st)
  | inl uuid =>
      match backend_GetChannel (handler_ChannelType handler) uuid st with
      | (inr err, st') =>
          forall anyFunc,
            channelFunctionWrapper handler anyFunc w r st = (WriteError w r err, st')
      | (inl channel, st') =>
          channelFunctionWrapper handler handlerFunc w r st
          = match handlerFunc channel w r st' with
            | (Some err, w', st'') => (WriteError w' r err, st'')
            | (None, w', st'') => (w', st'')
            end
      end
  end.
Proof.
  unfold channelFunctionWrapper.
  destruct (NewChannelUUID (URLParam r "uuid")) as [uuid|err]; [|reflexivity].
  destruct (backend_GetChannel (handler_ChannelType handler) uuid st) as [[channel|err] st'];
    reflexivity.
Qed.

(** ** The lifecycle *)

(** A goroutine that returns when run on its own returns in the machine,
    in as many moves as it ran instructions, the goroutines it started
    appended to the pool. *)
Lemma exec_run {A} (c : prog A) :
  forall p pool a p' sp tr,
  exec c p = Returned a p' sp tr ->
  run (repeat 0%nat (length tr))
    {| mproc := p; mmain := c; mpool := pool; mstatus := Running |}
  = {| mproc := p'; mmain := Ret a; mpool := pool ++ map taskBody sp; mstatus := Running |}.
Proof.
  induction c as [a0|X i k IH]; intros p pool a p' sp tr E; simpl in E.
  - injection E as <- <- <- <-. simpl. now rewrite app_nil_r.
  - destruct (perform i p) as [x p1 sp1| | |] eqn:P; try discriminate.
    destruct (exec (k x) p1) as [a1 p2 sp2 tr2| | |] eqn:E1; try discriminate.
    simpl in E. injection E as <- <- <- <-.
    simpl. unfold run in *. simpl. unfold step at 2. simpl. rewrite P.
    rewrite (IH x p1 (pool ++ map taskBody sp1) _ _ _ _ E1).
    now rewrite map_app, app_assoc.
Qed.

(** On its own goroutine Stop returns nil only past the wait, which lets it
    through at zero only. *)
Lemma Stop_returns_nil_at_zero p p' sp tr :
  exec Stop p = Returned None p' sp tr -> waitGroup (srv p') = 0.
Proof.
  unfold Stop. simpl.
  destruct (backend_Stop (ext p)) as [[err|] x]; simpl; [discriminate|].
  destruct (stopChan (srv p)); simpl; [|discriminate].
  destruct (httpServer (srv p)) as [h|]; simpl; [|discriminate].
  destruct (http_Shutdown x) as [e x']. simpl.
  destruct (waitGroup (srv p) =? 0) eqn:W; simpl; [|discriminate].
  intros [= <- _ _]. simpl. now apply Z.eqb_eq.
Qed.

(** C9: if the backend's Stop() returns an error, the server's Stop returns
    that error after this one call, with the server as it was: the stopped
    flag, the stop channel, the HTTP server and the wait group are not
    touched, the wait group is not waited for. *)
Theorem Stop_backend_error p err x :
  backend_Stop (ext p) = (Some err, x) ->
  exists p',
    exec Stop p = Returned (Some err) p' [] [Ev BackendStop]
    /\ srv p' = srv p
    /\ stopped (srv p') = stopped (srv p)
    /\ stopChan (srv p') = stopChan (srv p)
    /\ httpServer (srv p') = httpServer (srv p)
    /\ waitGroup (srv p') = waitGroup (srv p).
Proof.
  intros E. exists (with_ext p x). split; [|repeat split].
  unfold Stop. simpl. rewrite E. reflexivity.
Qed.

(** C4, as amended: Stop reaches close(s.stopChan) whenever the backend's
    Stop() returns nil, without reading the stopped flag.  On a server whose
    stop channel is still open this closes it, once; on a server whose stop
    channel is already closed (a second Stop after a completed one) the
    close panics. *)
Theorem Stop_close_is_unguarded p x :
  backend_Stop (ext p) = (None, x) ->
  (stopChan (srv p) = chanClosed ->
   exec Stop p
   = Panicked "close of closed channel"
       (with_srv (with_ext p x) (set_stopped (srv p) true))
       [Ev BackendStop; Ev (Assign (fun s => set_stopped s true)); Ev CloseStopChan])
  /\ (stopChan (srv p) = chanOpen ->
      forall h, httpServer (srv p) = Some h ->
      exists p' tr,
        (exec Stop p = Returned None p' [] tr
         \/ exec Stop p = BlockedIn (Ev WaitGroupWait) p' [] tr)
        /\ stopChan (srv p') = chanClosed
        /\ stopped (srv p') = true
        /\ closes tr = 1%nat).
Proof.
  intros E. split.
  - intros C. unfold Stop. simpl. rewrite E. simpl. rewrite C. reflexivity.
  - intros C h Hh. unfold Stop. simpl. rewrite E. simpl. rewrite C. simpl.
    rewrite Hh. simpl.
    destruct (http_Shutdown x) as [e x'] eqn:Sh. simpl.
    destruct (waitGroup (srv p) =? 0) eqn:W; simpl;
      eexists; eexists; (split; [first [left; reflexivity | right; reflexivity]|]);
      simpl; auto.
Qed.

End Properties.

(** * More of server.go *)

Section MoreProperties.
Context `{Collaborators} `{!ChannelHandlers}.

(** ** Route registration *)

Lemma sameButRoutes_refl (s : server) : sameButRoutes s s.
Proof. repeat split. Qed.

Lemma sameButRoutes_trans (s1 s2 s3 : server) :
  sameButRoutes s1 s2 -> sameButRoutes s2 s3 -> sameButRoutes s1 s3.
Proof.
  unfold sameButRoutes. intros (a1 & b1 & c1 & d1 & e1 & f1) (a2 & b2 & c2 & d2 & e2 & f2).
  repeat split; congruence.
Qed.



End MoreProperties.

Lemma append_slash_inj (a b : string) : a +:+ "/" = b +:+ "/" -> a = b.
Proof.
  revert b. induction a as [|x a IH]; intros [|y b] E; simpl in E.
  - reflexivity.
  - injection E as _ E. destruct b; discriminate E.
  - injection E as _ E. destruct a; discriminate E.
  - change (String x (a +:+ "/") = String y (b +:+ "/")) in E.
    injection E as -> E. f_equal. now apply IH.
Qed.

Lemma noSlash_ToLower (t : string) : noSlash (ToLower t) = noSlash t.
Proof.
  induction t as [|c t IH]; [reflexivity|]. simpl. rewrite IH. f_equal. f_equal.
  destruct c as [[] [] [] [] [] [] [] []]; reflexivity.
Qed.

Lemma routePath_inj (t1 a1 t2 a2 : string) :
  noSlash t1 = true -> noSlash t2 = true ->
  routePath t1 a1 = routePath t2 a2 -> t1 = t2 /\ a1 = a2.
Proof.
  unfold routePath. intros N1 N2 E.
  change ("/" +:+ t1 +:+ "/:uuid/" +:+ a1 +:+ "/")
    with (String "/" (t1 +:+ "/:uuid/" +:+ a1 +:+ "/")) in E.
  change ("/" +:+ t2 +:+ "/:uuid/" +:+ a2 +:+ "/")
    with (String "/" (t2 +:+ "/:uuid/" +:+ a2 +:+ "/")) in E.
  injection E as E. revert t2 N2 E.
  induction t1 as [|x t1 IH]; intros [|y t2] N2 E.
  - split; [reflexivity|].
    change (String "/" (String ":" (String "u" (String "u" (String "i" (String "d"
              (String "/" (a1 +:+ "/")))))))
            = String "/" (String ":" (String "u" (String "u" (String "i" (String "d"
              (String "/" (a2 +:+ "/")))))))) in E.
    injection E as E. now apply append_slash_inj.
  - exfalso. change (String "/" (":uuid/" +:+ a1 +:+ "/")
                     = String y (t2 +:+ "/:uuid/" +:+ a2 +:+ "/")) in E.
    injection E as <- _. simpl in N2. discriminate N2.
  - exfalso. change (String x (t1 +:+ "/:uuid/" +:+ a1 +:+ "/")
                     = String "/" (":uuid/" +:+ a2 +:+ "/")) in E.
    injection E as -> _. simpl in N1. discriminate N1.
  - change (String x (t1 +:+ "/:uuid/" +:+ a1 +:+ "/")
            = String y (t2 +:+ "/:uuid/" +:+ a2 +:+ "/")) in E.
    injection E as -> E. simpl in N1, N2.
    apply andb_true_iff in N1 as [_ N1]. apply andb_true_iff in N2 as [_ N2].
    destruct (IH N1 t2 N2 E) as [-> ->]. split; reflexivity.
Qed.

Section MoreRoutes.
Context `{Collaborators} `{!ChannelHandlers}.

Lemma AddChannelRoute_appended s handler method action f s' :
  AddChannelRoute s handler method action f = (None, s') ->
  exists M,
    chanRouter s'
    = chanRouter s ++ [Handle M (routePath (ToLower (handler_ChannelType handler)) action)
                         (channelFunc handler f)].
Proof.
  rewrite AddChannelRoute_cases.
  destruct (String.eqb (ToLower method) "get");
    [|destruct (String.eqb (ToLower method) "post")]; intros [= <-];
    eexists; reflexivity.
Qed.



End MoreRoutes.

Lemma Join_snoc (l : list string) (x sep : string) :
  Join (l ++ [x]) sep
  = match l with
    | [] => x
    | _ :: _ => Join l sep +:+ sep +:+ x
    end.
Proof.
  unfold Join. induction l as [|a l IH]; [reflexivity|].
  destruct l as [|b l].
  - reflexivity.
  - change (a +:+ sep +:+ String.concat sep ((b :: l) ++ [x])
            = (a +:+ sep +:+ String.concat sep (b :: l)) +:+ sep +:+ x).
    rewrite IH. now rewrite !append_assoc.
Qed.

Section MoreInit.
Context `{Collaborators} `{!ChannelHandlers}.


Lemma rangeRegisteredHandlers_app includes excludes (l1 l2 : list ChannelHandler) :
  forall s active,
  rangeRegisteredHandlers includes excludes (l1 ++ l2) s active
  = match rangeRegisteredHandlers includes excludes l1 s active with
    | initFatal err => initFatal err
    | initDone s1 active1 => rangeRegisteredHandlers includes excludes l2 s1 active1
    end.
Proof.
  induction l1 as [|h l1 IH]; intros s active; simpl; [reflexivity|].
  destruct (includedNotExcluded includes excludes (handler_ChannelType h)); [|apply IH].
  destruct (handler_Initialize h s) as [[err|] s1]; [reflexivity|apply IH].
Qed.

Lemma rangeRegisteredHandlers_filtered_out includes excludes registered s active :
  Forall (fun handler =>
            includedNotExcluded includes excludes (handler_ChannelType handler) = false)
    registered ->
  rangeRegisteredHandlers includes excludes registered s active = initDone s active.
Proof.
  intros F. induction F as [|h l Hh F IH]; simpl; [reflexivity|]. now rewrite Hh.
Qed.


(** X7: an include list that is set but empty switches every adapter off:
    the pass initialises none, whatever is registered and whatever the
    exclude list. *)
Theorem empty_include_list_activates_nothing registered s active :
  IncludeChannels (config s) = Some [] ->
  initializeChannelHandlers registered s active
  = initDone (set_routes s (sortStrings (routes s))) active.
Proof.
  intros E. unfold initializeChannelHandlers. rewrite E.
  rewrite rangeRegisteredHandlers_filtered_out; [reflexivity|].
  apply Forall_forall. intros h _. reflexivity.
Qed.

(** X8: the pass ends at the first adapter whose [Initialize] fails: if the
    adapters visited before it were dealt with and it passes the filters,
    the process is ended with its error, and no adapter after it is
    visited: the outcome is the same whatever follows. *)
Theorem first_failing_Initialize_is_fatal before handler rest s active s1 active1 err s2 :
  rangeRegisteredHandlers (IncludeChannels (config s)) (ExcludeChannels (config s))
    before s active = initDone s1 active1 ->
  includedNotExcluded (IncludeChannels (config s)) (ExcludeChannels (config s))
    (handler_ChannelType handler) = true ->
  handler_Initialize handler s1 = (Some err, s2) ->
  initializeChannelHandlers (before ++ handler :: rest) s active = initFatal err.
Proof.
  intros R I F. unfold initializeChannelHandlers.
  rewrite rangeRegisteredHandlers_app, R. simpl. now rewrite I, F.
Qed.

(** If the adapters change nothing but routes when initialised, as through
    [AddChannelRoute], neither does the pass. *)
Lemma rangeRegisteredHandlers_sameButRoutes includes excludes registered :
  (forall handler s s', handler_Initialize handler s = (None, s') -> sameButRoutes s s') ->
  forall s active s' active',
  rangeRegisteredHandlers includes excludes registered s active = initDone s' active' ->
  sameButRoutes s s'.
Proof.
  intros HI. induction registered as [|h l IH]; intros s active s' active' E; simpl in E.
  - injection E as <- _. apply sameButRoutes_refl.
  - destruct (includedNotExcluded includes excludes (handler_ChannelType h)); [|eauto].
    destruct (handler_Initialize h s) as [[err|] s1] eqn:Eh; [discriminate|].
    eapply sameButRoutes_trans; eauto.
Qed.

Lemma initializeChannelHandlers_sameButRoutes registered s active s' active' :
  (forall handler s s', handler_Initialize handler s = (None, s') -> sameButRoutes s s') ->
  initializeChannelHandlers registered s active = initDone s' active' ->
  sameButRoutes s s'.
Proof.
  intros HI. unfold initializeChannelHandlers.
  destruct (rangeRegisteredHandlers _ _ registered s active) as [err|s1 a1] eqn:R;
    [discriminate|].
  intros [= <- _]. apply (rangeRegisteredHandlers_sameButRoutes _ _ _ HI) in R.
  exact R.
Qed.

Lemma AddChannelRoute_sameButRoutes s handler method action f :
  sameButRoutes s (snd (AddChannelRoute s handler method action f)).
Proof.
  rewrite AddChannelRoute_cases.
  destruct (String.eqb (ToLower method) "get");
    [|destruct (String.eqb (ToLower method) "post")]; repeat split.
Qed.

Lemma registerActions_sameButRoutes handler actions :
  forall s, sameButRoutes s (snd (registerActions s handler actions)).
Proof.
  induction actions as [|[[m a] f] rest IH]; intros s; simpl.
  - apply sameButRoutes_refl.
  - pose proof (AddChannelRoute_sameButRoutes s handler m a f) as C.
    destruct (AddChannelRoute s handler m a f) as [[err|] s1]; simpl in *.
    + exact C.
    + eapply sameButRoutes_trans; [exact C|apply IH].
Qed.

End MoreInit.

Section MoreLifecycle.
Context `{Collaborators} `{!ChannelHandlers}.

(** X9: if the backend does not start, Start returns its error after this
    one call: no goroutine is started, no route is registered, the server
    is as it was. *)
Theorem Start_backend_error p err x :
  backend_Start (ext p) = (Some err, x) ->
  exec Start p = Returned (Some err) (with_ext p x) [] [Ev BackendStart].
Proof. intros E. unfold Start. simpl. rewrite E. reflexivity. Qed.

(** X10: if an adapter's Initialize fails during Start, the process ends
    with exit status 1 inside the initialisation pass: after the index
    route was registered, before the HTTP server is set up and before the
    serving goroutine is started. *)
Theorem Start_Initialize_failure_ends_process p x err :
  backend_Start (ext p) = (None, x) ->
  0 <= waitGroup (srv p) ->
  initializeChannelHandlers (registeredHandlers p)
    (set_router (set_waitGroup (srv p) (waitGroup (srv p) + 1))
       (mux_Get (router (srv p)) "/" handleIndexFunc))
    (activeHandlers p) = initFatal err ->
  exec Start p
  = Exited 1
      [Ev BackendStart; Ev (WaitGroupAdd 1); Ev (GoStmt spoolTask);
       Ev (Assign (fun s => set_router s (mux_Get (router s) "/" handleIndexFunc)));
       Ev InitializeChannelHandlers].
Proof.
  intros E W I. unfold Start. simpl. rewrite E. simpl.
  destruct (waitGroup (srv p) + 1 <? 0) eqn:N; [apply Z.ltb_lt in N; lia|].
  simpl. rewrite I. reflexivity.
Qed.

(** X11: when the backend starts and every adapter that is initialised
    succeeds, changing nothing but routes, Start returns nil with the index
    page registered on the top-level router at "/", the HTTP server set up
    on ":<port>" with read and write timeouts of 15 seconds, the serving
    goroutine started, and the listing sorted.  The stopped flag and the
    stop channel are not touched: Start does not bring a stopped server
    back. *)
Theorem Start_success p x :
  (forall handler s s', handler_Initialize handler s = (None, s') -> sameButRoutes s s') ->
  backend_Start (ext p) = (None, x) ->
  0 <= waitGroup (srv p) ->
  (forall err,
     initializeChannelHandlers (registeredHandlers p)
       (set_router (set_waitGroup (srv p) (waitGroup (srv p) + 1))
          (mux_Get (router (srv p)) "/" handleIndexFunc))
       (activeHandlers p) <> initFatal err) ->
  exists p' sp tr,
    exec Start p = Returned None p' sp tr
    /\ In serveTask sp
    /\ httpServer (srv p') = Some (configuredServer (config (srv p)))
    /\ router (srv p') = router (srv p) ++ [Handle "GET" "/" handleIndexFunc]
    /\ StronglySorted string_le (routes (srv p'))
    /\ stopped (srv p') = stopped (srv p)
    /\ stopChan (srv p') = stopChan (srv p)
    /\ ext p' = x.
Proof.
  intros HI E W I. unfold Start. simpl. rewrite E. simpl.
  destruct (waitGroup (srv p) + 1 <? 0) eqn:N; [apply Z.ltb_lt in N; lia|].
  simpl.
  destruct (initializeChannelHandlers (registeredHandlers p)
              (set_router (set_waitGroup (srv p) (waitGroup (srv p) + 1))
                 (mux_Get (router (srv p)) "/" handleIndexFunc))
              (activeHandlers p)) as [err|s1 a1] eqn:R; [now destruct (I err)|].
  simpl.
  pose proof (initializeChannelHandlers_sameButRoutes _ _ _ _ _ HI R)
    as (_ & Hr & Hc & _ & Hch & Hst).
  assert (HS : StronglySorted string_le (routes s1)).
  { unfold initializeChannelHandlers in R.
    destruct (rangeRegisteredHandlers _ _ _ _ _) as [|s0 a0]; [discriminate|].
    injection R as <- _. apply sortStrings_sorted. }
  eexists. eexists. eexists. split; [reflexivity|]. simpl.
  split; [auto|]. split; [unfold configuredServer; now rewrite Hc|].
  repeat split; auto.
Qed.

(** X12: a Stop that gets through (backend stopped, stop channel open, HTTP
    server set up, wait group at zero) returns nil even when the shutdown
    of the HTTP server reports an error, which is only logged.  It leaves
    the server marked stopped, the stop channel closed and the HTTP server
    shut down; the routers, the listing and the wait group are as
    before. *)
Theorem Stop_success p x h shutdownErr x' :
  backend_Stop (ext p) = (None, x) ->
  stopChan (srv p) = chanOpen ->
  httpServer (srv p) = Some h ->
  http_Shutdown x = (shutdownErr, x') ->
  waitGroup (srv p) = 0 ->
  exists p' tr,
    exec Stop p = Returned None p' [] tr
    /\ Stopped (srv p') = true
    /\ StopChan (srv p') = chanClosed
    /\ httpServer (srv p') = Some (shutDown h)
    /\ router (srv p') = router (srv p)
    /\ chanRouter (srv p') = chanRouter (srv p)
    /\ routes (srv p') = routes (srv p)
    /\ WaitGroup (srv p') = 0
    /\ ext p' = x'.
Proof.
  intros E C Hh Sh W. unfold Stop. simpl. rewrite E. simpl. rewrite C. simpl.
  rewrite Hh. simpl. rewrite Sh. simpl. rewrite W. simpl.
  eexists. eexists. split; [reflexivity|]. simpl. repeat split; auto.
Qed.


(** X14: the serving goroutine leaves the wait group as it found it on
    every way out.  If the server is already shut down, or the listener
    cannot be bound, it counts itself in, comes back from ListenAndServe
    and counts itself out, and the process goes on (the error is only
    logged); otherwise it stays in ListenAndServe, counted once. *)
Theorem serving_goroutine_counts_itself_in_and_out p h :
  0 <= waitGroup (srv p) ->
  httpServer (srv p) = Some h ->
  match (if inShutdown h then Some ErrServerClosed else http_Listen (Addr h) (ext p)) with
  | Some _ =>
      exists p' tr, exec serveHTTP p = Returned tt p' [] tr /\ srv p' = srv p /\ ext p' = ext p
  | None =>
      exists p' tr,
        exec serveHTTP p = BlockedIn (Ev ListenAndServe) p' [] tr
        /\ waitGroup (srv p') = waitGroup (srv p) + 1
  end.
Proof.
  intros W Hh. unfold serveHTTP. simpl.
  destruct (waitGroup (srv p) + 1 <? 0) eqn:N; [apply Z.ltb_lt in N; lia|].
  simpl. rewrite Hh.
  assert (D : (waitGroup (srv p) + 1 + -1 <? 0) = false) by (apply Z.ltb_ge; lia).
  assert (Q : forall s : server, 0 <= waitGroup s ->
                set_waitGroup (set_waitGroup s (waitGroup s + 1)) (waitGroup s + 1 + -1) = s).
  { intros [a b c d e f g i] _. unfold set_waitGroup. simpl. f_equal. lia. }
  destruct (inShutdown h).
  - simpl. rewrite D. simpl. eexists. eexists. split; [reflexivity|]. simpl.
    split; [now apply Q|reflexivity].
  - destruct (http_Listen (Addr h) (ext p)) as [e|].
    + simpl. rewrite D. simpl. eexists. eexists. split; [reflexivity|]. simpl.
      split; [now apply Q|reflexivity].
    + simpl. eexists. eexists. split; [reflexivity|]. reflexivity.
Qed.

End MoreLifecycle.

(** ** All interleavings *)

Section Interleaved.
Context `{Collaborators} `{!ChannelHandlers}.

Section Logic.
Variable Inv : process -> Prop.
Variable Guar : process -> process -> Prop.
Hypothesis Guar_refl : forall p, Guar p p.
Hypothesis Guar_trans : forall p1 p2 p3, Guar p1 p2 -> Guar p2 p3 -> Guar p1 p3.
Hypothesis tasks_obey :
  forall t, obeys Inv Guar (fun _ _ => True) (fun _ => True) (taskBody t).

Lemma obeys_Do_intro {A X} (Fin : A -> process -> Prop) (Pre : process -> Prop)
    (i : instr X) (k : X -> prog A) (Post : X -> process -> Prop) :
  (forall p x p' sp, Inv p -> Pre p -> perform i p = Done x p' sp ->
                     Inv p' /\ Guar p p' /\ Post x p') ->
  (forall x, stable Guar (Post x)) ->
  (forall x, obeys Inv Guar Fin (Post x) (k x)) ->
  obeys Inv Guar Fin Pre (Do i k).
Proof. intros St Sb Ok. exists Post. auto. Qed.

Lemma obeys_weaken {A} (Fin Fin' : A -> process -> Prop) (Pre Pre' : process -> Prop)
    (c : prog A) :
  (forall p, Inv p -> Pre' p -> Pre p) ->
  (forall a p, Fin a p -> Fin' a p) ->
  obeys Inv Guar Fin Pre c -> obeys Inv Guar Fin' Pre' c.
Proof.
  revert Pre Pre'. induction c as [a|X i k IH]; intros Pre Pre' HP HF O; simpl in *.
  - intros p I P. apply HF, O; auto.
  - destruct O as (Post & St & Sb & Ok). exists Post. split; [|split].
    + intros p x p' sp I P E. apply (St p x p' sp); auto.
    + exact Sb.
    + intros x. apply (IH x (Post x) (Post x)); auto.
Qed.

Lemma obeys_bind {A B} (Mid : A -> process -> Prop) (Fin : B -> process -> Prop)
    (Pre : process -> Prop) (c : prog A) (f : A -> prog B) :
  obeys Inv Guar Mid Pre c ->
  (forall a, obeys Inv Guar Fin (Mid a) (f a)) ->
  obeys Inv Guar Fin Pre (bind c f).
Proof.
  revert Pre. induction c as [a|X i k IH]; intros Pre O F; simpl in *.
  - apply (obeys_weaken Fin Fin (Mid a) Pre); auto.
  - destruct O as (Post & St & Sb & Ok). exists Post. split; [exact St|].
    split; [exact Sb|]. intros x. apply IH; auto.
Qed.

Lemma threadOk_moved {A} (Fin : A -> process -> Prop) (c : prog A) p p' :
  threadOk Inv Guar Fin c p -> Guar p p' -> threadOk Inv Guar Fin c p'.
Proof. intros (Pre & P & S & O) G. exists Pre. split; [eapply S; eauto|auto]. Qed.

Lemma threadOk_step {A} (Fin : A -> process -> Prop) (c c' : prog A) p p' sp :
  Inv p -> threadOk Inv Guar Fin c p ->
  stepProg c p = inl (Some (c', p', sp)) ->
  Inv p' /\ Guar p p' /\ threadOk Inv Guar Fin c' p'.
Proof.
  intros I (Pre & P & S & O) E. destruct c as [a|X i k]; simpl in E; [discriminate|].
  destruct (perform i p) as [x p1 sp1| | |] eqn:Pf; try discriminate.
  injection E as <- <- <-. simpl in O. destruct O as (Post & St & Sb & Ok).
  destruct (St p x p1 sp1 I P Pf) as (I' & G & Q).
  split; [exact I'|]. split; [exact G|]. exists (Post x). auto.
Qed.

Lemma spawned_ok p (sp : list task) :
  Forall (fun g => threadOk Inv Guar (fun _ _ => True) g p) (map taskBody sp).
Proof.
  apply Forall_forall. intros g Hg. apply list_elem_of_fmap in Hg as [t [-> _]].
  exists (fun _ => True). split; [exact I|]. split; [intros ? ? ? ?; exact I|].
  apply tasks_obey.
Qed.

Lemma step_ok {A} (Fin : A -> process -> Prop) (tid : nat) (m : machine A) :
  machineOk Inv Guar Fin m ->
  machineOk Inv Guar Fin (step tid m) /\ Guar (mproc m) (mproc (step tid m)).
Proof.
  intros (I & Tm & Tp). unfold step.
  destruct (mstatus m); [|split; [split; auto|apply Guar_refl]..].
  destruct tid as [|n].
  - destruct (stepProg (mmain m) (mproc m)) as [[[[c' p'] sp]|]|st] eqn:E;
      [|split; [split; auto|apply Guar_refl]..].
    destruct (threadOk_step Fin _ _ _ _ _ I Tm E) as (I' & G & T'). simpl.
    split; [|exact G]. split; [exact I'|]. split; [exact T'|]. simpl.
    apply Forall_app. split; [|apply spawned_ok].
    eapply Forall_impl; [exact Tp|]. intros g Hg. exact (threadOk_moved _ _ _ _ Hg G).
  - destruct (mpool m !! n) as [g|] eqn:L; [|split; [split; auto|apply Guar_refl]].
    destruct (stepProg g (mproc m)) as [[[[c' p'] sp]|]|st] eqn:E;
      [|split; [split; auto|apply Guar_refl]..].
    assert (Tg : threadOk Inv Guar (fun _ _ => True) g (mproc m)).
    { rewrite Forall_forall in Tp. apply Tp. eapply list_elem_of_lookup_2; eauto. }
    destruct (threadOk_step _ _ _ _ _ _ I Tg E) as (I' & G & T'). simpl.
    split; [|exact G]. split; [exact I'|]. split; [exact (threadOk_moved _ _ _ _ Tm G)|]. simpl.
    apply Forall_app. split; [|apply spawned_ok].
    apply Forall_insert; [|exact T'].
    eapply Forall_impl; [exact Tp|]. intros g' Hg. exact (threadOk_moved _ _ _ _ Hg G).
Qed.

Lemma run_ok {A} (Fin : A -> process -> Prop) (schedule : list nat) :
  forall m : machine A,
  machineOk Inv Guar Fin m ->
  machineOk Inv Guar Fin (run schedule m) /\ Guar (mproc m) (mproc (run schedule m)).
Proof.
  induction schedule as [|tid rest IH]; intros m Ok.
  - split; [exact Ok|apply Guar_refl].
  - destruct (step_ok Fin tid m Ok) as [Ok1 G1].
    destruct (IH _ Ok1) as [Ok2 G2]. split; [exact Ok2|].
    eapply Guar_trans; eauto.
Qed.

Lemma returned_Fin {A} (Fin : A -> process -> Prop) (m : machine A) (a : A) :
  machineOk Inv Guar Fin m -> returned m = Some a -> Fin a (mproc m).
Proof.
  intros (I & (Pre & P & S & O) & _). unfold returned.
  destruct (mmain m) as [a'|X i k]; [|discriminate]. intros [= <-]. apply O; auto.
Qed.

End Logic.
End Interleaved.

Section StopSignal.
Context `{Collaborators} `{!ChannelHandlers}.

Lemma noWayBack_refl p : noWayBack p p.
Proof. split; auto. Qed.

Lemma noWayBack_trans p1 p2 p3 : noWayBack p1 p2 -> noWayBack p2 p3 -> noWayBack p1 p3.
Proof. intros [a b] [c d]. split; auto. Qed.

Lemma quiet_step {X} (i : instr X) p x p' sp :
  quiet i -> closedOnlyIfStopped p -> perform i p = Done x p' sp ->
  closedOnlyIfStopped p' /\ noWayBack p p'.
Proof.
  intros Q I E. destruct (Q p x p' sp E) as [S C].
  unfold closedOnlyIfStopped, noWayBack in *. rewrite S, C. auto.
Qed.

Lemma obeys_quiet {A} (Q : process -> Prop) (c : prog A) :
  (forall p p', Q p -> stopped (srv p') = stopped (srv p) ->
                stopChan (srv p') = stopChan (srv p) -> Q p') ->
  stable noWayBack Q ->
  allQuiet c ->
  obeys closedOnlyIfStopped noWayBack (fun _ p => Q p) Q c.
Proof.
  intros HQ SQ. induction c as [a|X i k IH]; simpl.
  - auto.
  - intros [Qi Qk]. exists (fun _ p => Q p). split; [|split].
    + intros p x p' sp I P E. destruct (quiet_step i p x p' sp Qi I E) as [I' G].
      destruct (Qi p x p' sp E) as [S C]. split; [exact I'|]. split; [exact G|].
      eapply HQ; eauto.
    + intros x. exact SQ.
    + intros x. apply IH, Qk.
Qed.

Lemma allQuiet_bind {A B} (c : prog A) (f : A -> prog B) :
  allQuiet c -> (forall a, allQuiet (f a)) -> allQuiet (bind c f).
Proof.
  induction c as [a|X i k IH]; simpl; [auto|]. intros [Qi Qk] F. split; auto.
Qed.

Ltac done_inv E := inversion E; subst; simpl; auto.

Lemma quiet_BackendStart : quiet BackendStart.
Proof.
  intros p x p' sp E. simpl in E.
  destruct (backend_Start (ext p)) as [e w]. done_inv E.
Qed.

Lemma quiet_BackendStop : quiet BackendStop.
Proof.
  intros p x p' sp E. simpl in E.
  destruct (backend_Stop (ext p)) as [e w]. done_inv E.
Qed.

Lemma quiet_WaitGroupAdd delta : quiet (WaitGroupAdd delta).
Proof.
  intros p x p' sp E. simpl in E.
  destruct (waitGroup (srv p) + delta <? 0); [discriminate|]. done_inv E.
Qed.

Lemma quiet_WaitGroupWait : quiet WaitGroupWait.
Proof.
  intros p x p' sp E. simpl in E.
  destruct (waitGroup (srv p) =? 0); [|discriminate]. done_inv E.
Qed.

Lemma quiet_GoStmt t : quiet (GoStmt t).
Proof. intros p x p' sp E. simpl in E. done_inv E. Qed.

Lemma quiet_ReceiveStopChan : quiet ReceiveStopChan.
Proof.
  intros p x p' sp E. simpl in E.
  destruct (stopChan (srv p)) eqn:C; [discriminate|]. done_inv E.
Qed.

Lemma quiet_ListenAndServe : quiet ListenAndServe.
Proof.
  intros p x p' sp E. simpl in E.
  destruct (httpServer (srv p)) as [h|]; [|discriminate].
  destruct (inShutdown h); [done_inv E|].
  destruct (http_Listen (Addr h) (ext p)); [|discriminate]. done_inv E.
Qed.

Lemma quiet_Shutdown : quiet Shutdown.
Proof.
  intros p x p' sp E. simpl in E.
  destruct (httpServer (srv p)) as [h|]; [|discriminate].
  destruct (http_Shutdown (ext p)) as [e w]. done_inv E.
Qed.

Lemma quiet_Assign (f : server -> server) :
  (forall s, stopped (f s) = stopped s /\ stopChan (f s) = stopChan s) ->
  quiet (Assign f).
Proof. intros Hf p x p' sp E. simpl in E. inversion E; subst. simpl. apply Hf. Qed.

Section WithHandlers.
Hypothesis Initialize_keeps :
  forall handler s s',
    handler_Initialize handler s = (None, s') ->
    stopped s' = stopped s /\ stopChan s' = stopChan s.

Lemma rangeRegisteredHandlers_keeps includes excludes registered :
  forall s active s' active',
  rangeRegisteredHandlers includes excludes registered s active = initDone s' active' ->
  stopped s' = stopped s /\ stopChan s' = stopChan s.
Proof.
  induction registered as [|h l IH]; intros s active s' active' E; simpl in E.
  - injection E as <- _. auto.
  - destruct (includedNotExcluded includes excludes (handler_ChannelType h)); [|eauto].
    destruct (handler_Initialize h s) as [[err|] s1] eqn:Eh; [discriminate|].
    destruct (Initialize_keeps _ _ _ Eh) as [S1 C1].
    destruct (IH _ _ _ _ E) as [S2 C2]. split; congruence.
Qed.

Lemma quiet_InitializeChannelHandlers : quiet InitializeChannelHandlers.
Proof.
  intros p x p' sp E. simpl in E. unfold initializeChannelHandlers in E.
  destruct (rangeRegisteredHandlers _ _ _ _ _) as [err|s1 a1] eqn:R; [discriminate|].
  inversion E; subst. simpl. eapply rangeRegisteredHandlers_keeps; eauto.
Qed.

Lemma allQuiet_Start : allQuiet Start.
Proof.
  unfold Start. simpl. split; [apply quiet_BackendStart|]. intros [err|]; simpl; [exact I|].
  split; [apply quiet_WaitGroupAdd|]. intros _.
  split; [apply quiet_GoStmt|]. intros _.
  split; [apply quiet_Assign; intros s; auto|]. intros _.
  split; [apply quiet_InitializeChannelHandlers|]. intros _.
  split; [apply quiet_Assign; intros s; auto|]. intros _.
  split; [apply quiet_GoStmt|]. intros _. exact I.
Qed.

Lemma allQuiet_tasks (t : task) : allQuiet (taskBody t).
Proof.
  destruct t; simpl.
  - split; [apply quiet_WaitGroupAdd|]. intros _.
    split; [apply quiet_ListenAndServe|]. intros _.
    split; [apply quiet_WaitGroupAdd|]. intros _. exact I.
  - split; [apply quiet_ReceiveStopChan|]. intros _.
    split; [apply quiet_WaitGroupAdd|]. intros _. exact I.
Qed.

Lemma tasks_obey_stop_signal (t : task) :
  obeys closedOnlyIfStopped noWayBack (fun _ _ => True) (fun _ => True) (taskBody t).
Proof.
  apply (obeys_quiet (fun _ => True)); [auto|intros ? ? ? ?; exact I|apply allQuiet_tasks].
Qed.

Lemma Stop_unfold :
  Stop
  = Do BackendStop (fun err =>
      match err with
      | Some err => Ret (Some err)
      | None =>
          Do (Assign (fun s => set_stopped s true)) (fun _ =>
          Do CloseStopChan (fun _ =>
          Do Shutdown (fun _ =>
          Do WaitGroupWait (fun _ => Ret None))))
      end).
Proof. reflexivity. Qed.

(** What the caller knows when a [Stop] has returned nil. *)
Lemma Stop_obeys (Pre : process -> Prop) :
  obeys closedOnlyIfStopped noWayBack
    (fun (r : option error) p =>
       r = None -> stopped (srv p) = true /\ stopChan (srv p) = chanClosed)
    Pre Stop.
Proof.
  rewrite Stop_unfold.
  apply obeys_Do_intro with (Post := fun _ _ => True).
  - intros p x p' sp In _ E.
    destruct (quiet_step _ _ _ _ _ quiet_BackendStop In E). auto.
  - intros ? ? ? ? ?. exact I.
  - intros [err|]; [intros p _ _ [=]|].
    apply obeys_Do_intro with (Post := fun _ p => stopped (srv p) = true).
    + intros p x p' sp In _ E. simpl in E. inversion E; subst.
      unfold closedOnlyIfStopped, noWayBack. simpl. auto.
    + intros _ p p' S [G _]. auto.
    + intros _.
      apply obeys_Do_intro
        with (Post := fun _ p => stopped (srv p) = true /\ stopChan (srv p) = chanClosed).
      * intros p x p' sp In S E. simpl in E.
        destruct (stopChan (srv p)) eqn:C; [|discriminate]. inversion E; subst.
        unfold closedOnlyIfStopped, noWayBack. simpl. auto.
      * intros _ p p' [S C] [G1 G2]. auto.
      * intros _.
        apply (obeys_weaken closedOnlyIfStopped noWayBack
                 (fun _ p => stopped (srv p) = true /\ stopChan (srv p) = chanClosed) _
                 (fun p => stopped (srv p) = true /\ stopChan (srv p) = chanClosed));
          [auto|auto|].
        apply (obeys_quiet (fun p => stopped (srv p) = true /\ stopChan (srv p) = chanClosed)).
        -- intros p p' [S C] -> ->. auto.
        -- intros p p' [S C] [G1 G2]. auto.
        -- split; [apply quiet_Shutdown|]. intros _.
           split; [apply quiet_WaitGroupWait|]. intros _. exact I.
Qed.

Lemma calls_obey (cs : list apiCall) (Pre : process -> Prop) :
  obeys closedOnlyIfStopped noWayBack (fun _ _ => True) Pre (calls cs).
Proof.
  revert Pre. induction cs as [|c rest IH]; intros Pre; simpl; [auto|].
  apply (obeys_bind closedOnlyIfStopped noWayBack (fun _ _ => True)); [|intros _; apply IH].
  destruct c.
  - apply (obeys_weaken closedOnlyIfStopped noWayBack (fun _ _ => True) _ (fun _ => True));
      [auto|auto|].
    apply (obeys_quiet (fun _ => True)); [auto|intros ? ? ? ?; exact I|apply allQuiet_Start].
  - eapply obeys_weaken; [| |apply (Stop_obeys Pre)]; auto.
Qed.

Lemma callsThenStop_ok (cs : list apiCall) (p : process) :
  closedOnlyIfStopped p ->
  machineOk closedOnlyIfStopped noWayBack
    (fun (r : option error) p =>
       r = None -> stopped (srv p) = true /\ stopChan (srv p) = chanClosed)
    (boot (callsThenStop cs) p).
Proof.
  intros In. split; [exact In|]. split; [|constructor].
  exists (fun _ => True). split; [exact I|]. split; [intros ? ? ? ?; exact I|].
  unfold callsThenStop.
  apply (obeys_bind closedOnlyIfStopped noWayBack (fun _ _ => True));
    [apply calls_obey|intros _; apply Stop_obeys].
Qed.

(** X15: whatever calls of Start and Stop the caller makes, and however
    the goroutines are interleaved, the stop channel is never closed on a
    server that is not marked stopped; and whenever a call of Stop has
    returned nil, the server is marked stopped and the stop channel is
    closed (adapters leaving both alone when initialised). *)
Theorem stop_signal_in_every_interleaving (cs : list apiCall) (p : process)
    (schedule : list nat) :
  closedOnlyIfStopped p ->
  let m := run schedule (boot (callsThenStop cs) p) in
  (StopChan (srv (mproc m)) = chanClosed -> Stopped (srv (mproc m)) = true)
  /\ (returned m = Some None ->
      Stopped (srv (mproc m)) = true /\ StopChan (srv (mproc m)) = chanClosed).
Proof.
  intros In m.
  destruct (run_ok closedOnlyIfStopped noWayBack noWayBack_refl noWayBack_trans
              tasks_obey_stop_signal _ schedule _ (callsThenStop_ok cs p In)) as [Ok _].
  fold m in Ok. split.
  - destruct Ok as [I' _]. exact I'.
  - intros R.
    exact (returned_Fin closedOnlyIfStopped noWayBack _ m None Ok R eq_refl).
Qed.


End WithHandlers.
End StopSignal.

Lemma RuneCountInString_ascii (s : string) :
  isASCII s = true -> RuneCountInString s = String.length s.
Proof.
  unfold RuneCountInString. induction s as [|c s IH]; [reflexivity|].
  simpl. intros E. apply andb_true_iff in E as [Ec Es].
  unfold runeSize. rewrite Ec. simpl. f_equal. now apply IH.
Qed.

Lemma length_append (a b : string) :
  String.length (a +:+ b) = (String.length a + String.length b)%nat.
Proof.
  induction a as [|x a IH]; [reflexivity|].
  change (S (String.length (a +:+ b)) = S (String.length a + String.length b)).
  now rewrite IH.
Qed.

Lemma length_spaces (n : nat) : String.length (spaces n) = n.
Proof. induction n as [|n IH]; simpl; [reflexivity|now rewrite IH]. Qed.

(** X17: in a line of the listing an ASCII path is padded with spaces to 20
    columns and never cut: the path comes first and whole, and the " - "
    that follows it starts at column 20, or right after the path when the
    path is longer. *)
Theorem routeLine_of_ascii_path (fullPath name action : string) :
  isASCII fullPath = true ->
  routeLine fullPath name action
  = fullPath +:+ spaces (20 - String.length fullPath) +:+ " - " +:+ name +:+ " " +:+ action
  /\ String.length (fullPath +:+ spaces (20 - String.length fullPath))
     = Nat.max 20 (String.length fullPath).
Proof.
  intros E. split.
  - unfold routeLine, padRight. rewrite (RuneCountInString_ascii _ E).
    now rewrite !append_assoc.
  - rewrite length_append, length_spaces. lia.
Qed.


(** * The probe instance: runs, witnesses and counterexamples *)

Import Probe.

(** ** Route registration *)

Lemma AddChannelRoute_unsupported_method_witness :
  AddChannelRoute (blank (cfg None None)) X "PUT" "receive" spy
  = (Some "unsupported method: put", blank (cfg None None)).
Proof.
  apply (AddChannelRoute_unsupported_method (blank (cfg None None)) X "PUT" "receive" spy);
    simpl; discriminate.
Defined.


(** ** The initialisation pass *)


Lemma initDone_eta (r : initResult) :
  initFailed r = false -> r = initDone (initServer r) (initActive r).
Proof. destruct r; [discriminate|reflexivity]. Qed.


(** C7, the claim refuted: adapter Z registers the actions "r" and
    "r/         "; the path of the first is below the path of the second,
    and the listing has the line of the second one first. *)
Lemma listing_not_in_path_order :
  let r := initializeChannelHandlers [Z] (blank (cfg None None)) ∅ in
  initFailed r = false
  /\ routes (initServer r)
     = [routeLine "/c/z/:uuid/r/         /" "Z Adapter" "r/         ";
        routeLine "/c/z/:uuid/r/" "Z Adapter" "r"]
  /\ string_le "/c/z/:uuid/r/" "/c/z/:uuid/r/         /"
  /\ ~ string_le "/c/z/:uuid/r/         /" "/c/z/:uuid/r/".
Proof.
  vm_compute. split; [reflexivity|]. split; [reflexivity|]. split; [reflexivity|].
  discriminate.
Qed.

Lemma index_lists_routes_sorted_witness :
  let r := initializeChannelHandlers [Y; X] (blank (cfg None None)) ∅ in
  StronglySorted string_le (routes (initServer r)).
Proof.
  intros r.
  assert (E : r = initDone (initServer r) (initActive r))
    by (apply initDone_eta; vm_compute; reflexivity).
  apply (index_lists_routes_sorted (H := collaborators) [Y; X] (blank (cfg None None)) ∅ _ _ E).
Defined.

(** The index page of the specification's example: adapters X (GET
    receive) and Y (POST status) give the same listing in either order. *)
Example index_X_Y_either_order :
  forall registered, registered = [X; Y] \/ registered = [Y; X] ->
  let r := initializeChannelHandlers registered (blank (cfg None None)) ∅ in
  initFailed r = false
  /\ Join (routes (initServer r)) newline
     = "/c/x/:uuid/receive/  - X Adapter receive" +:+ newline
       +:+ "/c/y/:uuid/status/   - Y Adapter status".
Proof. intros registered [-> | ->]; vm_compute; split; reflexivity. Qed.

(** ** Request dispatch, with the spy *)

Example dispatch_malformed_uuid :
  channelFunctionWrapper X spy [] "not-a-uuid" (quiet [])
  = (["error: invalid UUID"], quiet []).
Proof. reflexivity. Qed.

Example dispatch_unknown_channel :
  channelFunctionWrapper X spy [] unknown_uuid (quiet [])
  = (["error: channel not found"], quiet []).
Proof. reflexivity. Qed.

Example dispatch_known_channel :
  let '(w, st) := channelFunctionWrapper X spy [] known_uuid (quiet []) in
  w = ["ok"] /\ invocations st = 1%nat.
Proof. vm_compute. split; reflexivity. Qed.

(** ** The lifecycle *)

Lemma Stop_backend_error_witness :
  exists p',
    exec Stop (serving [Some "backend down"])
    = Returned (Some "backend down") p' [] [Ev BackendStop]
    /\ srv p' = srv (serving [Some "backend down"]).
Proof.
  assert (E0 : backend_Stop (ext (serving [Some "backend down"]))
               = (Some "backend down", quiet [])) by (vm_compute; reflexivity).
  destruct (Stop_backend_error (serving [Some "backend down"]) "backend down"
              (quiet []) E0) as [p' [E [S _]]].
  exists p'. split; assumption.
Defined.

Lemma Stop_close_is_unguarded_witness :
  let p := mproc (run cleanStop (boot startThenStop (fresh []))) in
  stopped (srv p) = true
  /\ exists p' tr, exec Stop p = Panicked "close of closed channel" p' tr.
Proof.
  intros p. split; [vm_compute; reflexivity|].
  assert (E0 : backend_Stop (ext p) = (None, quiet [])) by (vm_compute; reflexivity).
  assert (C : stopChan (srv p) = chanClosed) by (vm_compute; reflexivity).
  pose proof (proj1 (Stop_close_is_unguarded p (quiet []) E0) C) as E.
  eexists. eexists. exact E.
Defined.

(** C4, the claim refuted: the caller starts the server and calls Stop; the
    goroutines leave and Stop returns nil.  The caller calls Stop again: the
    backend's Stop() returns nil, and the process panics on closing the
    closed stop channel. *)
Lemma second_Stop_panics :
  returned (run cleanStop (boot startThenStop (fresh []))) = Some (None, None)
  /\ stopped (srv (mproc (run cleanStop (boot startThenStopTwice (fresh []))))) = true
  /\ mstatus (run cleanStop (boot startThenStopTwice (fresh []))) = Running
  /\ mstatus (run stopAgain (boot startThenStopTwice (fresh [])))
     = Crashed "close of closed channel".
Proof. vm_compute. repeat split; reflexivity. Qed.

(** C1, at the failing input: the server is started and serving, the
    backend's Stop() fails.  Stop returns the backend's error, and none of
    the remaining shutdown steps has been taken: the stopped flag is false,
    the stop channel open, the HTTP server not shut down. *)
Theorem Stop_backend_error_leaves_server_running :
  let m := run servingThenStop (boot startThenStop (fresh [Some "backend down"])) in
  returned m = Some (None, Some "backend down")
  /\ mstatus m = Running
  /\ stopped (srv (mproc m)) = false
  /\ stopChan (srv (mproc m)) = chanOpen
  /\ inShutdown <$> httpServer (srv (mproc m)) = Some false.
Proof. vm_compute. repeat split; reflexivity. Qed.

(** C2, at the failing input: the same run.  Stop is back with the caller
    while the wait group stands at 2 and both goroutines started by Start,
    the spool flusher and the serving one, are still there, each blocked
    until the shutdown that has not happened. *)
Theorem Stop_returns_with_goroutines_running :
  let m := run servingThenStop (boot startThenStop (fresh [Some "backend down"])) in
  returned m = Some (None, Some "backend down")
  /\ waitGroup (srv (mproc m)) = 2
  /\ map live (mpool m) = [true; true]
  /\ map (fun g => canMove g (mproc m)) (mpool m) = [false; false].
Proof. vm_compute. repeat split; reflexivity. Qed.

(** The serving goroutine counts itself in only once it runs.  If it has
    not moved when Stop waits, the wait group is at zero as soon as the
    spool flusher has left: Stop returns nil to the caller with the serving
    goroutine still to run, and the counter goes up after that. *)
Lemma Stop_returns_before_serving_goroutine :
  let m := run lateServing (boot startThenStop (fresh [])) in
  returned m = Some (None, None)
  /\ waitGroup (srv (mproc m)) = 0
  /\ map live (mpool m) = [false; true]
  /\ waitGroup (srv (mproc (step 2 m))) = 1.
Proof. vm_compute. repeat split; reflexivity. Qed.

(** * The probe instance: more witnesses *)






Lemma empty_include_list_activates_nothing_witness :
  initializeChannelHandlers (H := collaborators) [X; Y] (blank (cfg (Some []) None)) ∅
  = initDone (set_routes (blank (cfg (Some []) None)) (sortStrings [])) ∅.
Proof.
  apply (empty_include_list_activates_nothing (H := collaborators)
           [X; Y] (blank (cfg (Some []) None)) ∅).
  reflexivity.
Defined.

Lemma first_failing_Initialize_is_fatal_witness :
  initializeChannelHandlers (H := collaborators) ([X] ++ putAdapter :: [Y])
    (blank (cfg None None)) ∅
  = initFatal "unsupported method: put".
Proof.
  set (r := rangeRegisteredHandlers (H := collaborators) None None [X]
              (blank (cfg None None)) ∅).
  assert (E : r = initDone (initServer r) (initActive r))
    by (apply initDone_eta; vm_compute; reflexivity).
  apply (first_failing_Initialize_is_fatal (H := collaborators) [X] putAdapter [Y]
           (blank (cfg None None)) ∅ (initServer r) (initActive r)
           "unsupported method: put"
           (snd (handler_Initialize (H := collaborators) putAdapter (initServer r))) E eq_refl).
  rewrite (surjective_pairing (handler_Initialize (H := collaborators) putAdapter (initServer r))).
  f_equal; vm_compute; reflexivity.
Defined.

Lemma Start_backend_error_witness :
  exec (H := DownProbe.collaborators) (H0 := DownProbe.handlers) Start DownProbe.fresh
  = Returned (Some "no database") DownProbe.fresh [] [Ev BackendStart].
Proof.
  exact (Start_backend_error (H := DownProbe.collaborators) (H0 := DownProbe.handlers)
           DownProbe.fresh "no database" (quiet []) eq_refl).
Defined.

Lemma Start_Initialize_failure_ends_process_witness :
  exec Start misconfigured
  = Exited 1
      [Ev BackendStart; Ev (WaitGroupAdd 1); Ev (GoStmt spoolTask);
       Ev (Assign (fun s => set_router s (mux_Get (router s) "/" handleIndexFunc)));
       Ev InitializeChannelHandlers].
Proof.
  apply (Start_Initialize_failure_ends_process misconfigured (quiet [])
           "unsupported method: put" eq_refl).
  - simpl. lia.
  - vm_compute. reflexivity.
Defined.

Lemma Initialize_changes_routes_only :
  forall (handler : adapter) (s s' : server),
    handler_Initialize handler s = (None, s') -> sameButRoutes s s'.
Proof.
  intros handler s s' E.
  pose proof (registerActions_sameButRoutes handler
                (map (fun ma => (fst ma, snd ma, spy)) (adapterActions handler)) s) as R.
  simpl in E. rewrite E in R. exact R.
Qed.

Lemma Start_success_witness :
  exists p' sp tr,
    exec Start (fresh []) = Returned None p' sp tr
    /\ In serveTask sp
    /\ httpServer (srv p') = Some (configuredServer (cfg None None))
    /\ router (srv p') = router (blank (cfg None None)) ++ [Handle "GET" "/" handleIndexFunc]
    /\ StronglySorted string_le (routes (srv p'))
    /\ stopped (srv p') = false
    /\ stopChan (srv p') = chanOpen
    /\ ext p' = quiet [].
Proof.
  apply (Start_success (fresh []) (quiet []) Initialize_changes_routes_only eq_refl).
  - simpl. lia.
  - intros err E.
    assert (F : initFailed
                  (initializeChannelHandlers (registeredHandlers (fresh []))
                     (set_router
                        (set_waitGroup (srv (fresh [])) (waitGroup (srv (fresh [])) + 1))
                        (mux_Get (router (srv (fresh []))) "/" handleIndexFunc))
                     (activeHandlers (fresh []))) = false) by (vm_compute; reflexivity).
    rewrite E in F. discriminate F.
Defined.

Lemma Stop_success_witness :
  exists p' tr,
    exec Stop idle = Returned None p' [] tr
    /\ Stopped (srv p') = true
    /\ StopChan (srv p') = chanClosed
    /\ httpServer (srv p') = Some (shutDown (configuredServer (cfg None None)))
    /\ router (srv p') = router (srv idle)
    /\ chanRouter (srv p') = chanRouter (srv idle)
    /\ routes (srv p') = routes (srv idle)
    /\ WaitGroup (srv p') = 0
    /\ ext p' = quiet [].
Proof.
  exact (Stop_success idle (quiet []) (configuredServer (cfg None None)) None (quiet [])
           eq_refl eq_refl eq_refl eq_refl eq_refl).
Defined.


Lemma serving_goroutine_counts_itself_in_and_out_witness :
  exists p' tr,
    exec serveHTTP idle = BlockedIn (Ev ListenAndServe) p' [] tr
    /\ waitGroup (srv p') = waitGroup (srv idle) + 1.
Proof.
  apply (serving_goroutine_counts_itself_in_and_out idle (configuredServer (cfg None None))).
  - simpl. lia.
  - reflexivity.
Defined.

Lemma Initialize_keeps_stop_signal :
  forall (handler : adapter) (s s' : server),
    handler_Initialize handler s = (None, s') ->
    stopped s' = stopped s /\ stopChan s' = stopChan s.
Proof.
  intros handler s s' E.
  destruct (Initialize_changes_routes_only handler s s' E) as (_ & _ & _ & _ & C & S).
  auto.
Qed.

Lemma stop_signal_in_every_interleaving_witness :
  let m := run stopAgain (boot (callsThenStop [callStart; callStop]) (fresh [])) in
  (StopChan (srv (mproc m)) = chanClosed -> Stopped (srv (mproc m)) = true)
  /\ (returned m = Some None ->
      Stopped (srv (mproc m)) = true /\ StopChan (srv (mproc m)) = chanClosed).
Proof.
  apply (stop_signal_in_every_interleaving (H := collaborators) Initialize_keeps_stop_signal
           [callStart; callStop] (fresh []) stopAgain).
  intros C. discriminate C.
Defined.


Lemma routeLine_of_ascii_path_witness :
  routeLine "/c/x/:uuid/receive/" "X Adapter" "receive"
  = "/c/x/:uuid/receive/  - X Adapter receive".
Proof.
  destruct (routeLine_of_ascii_path "/c/x/:uuid/receive/" "X Adapter" "receive" eq_refl)
    as [E _].
  rewrite E. reflexivity.
Defined.
